(** * IoT image monitor: a shallow embedding of [monitor.py]

  The program watches a folder, and for every created image file sleeps
  30 seconds, posts the file with [curl], and on exit status 0 moves it to
  the archive folder under a collision-free name.

  The embedding follows the source function by function:
  - the pieces of [pathlib] and [os.path] the handler calls, on POSIX
    paths (CPython 3.8 - 3.13 semantics), as executable string functions;
  - the handler state ([self.processing_files]), the file system, the
    console and the log of external calls as one explicit machine state;
  - [try / except Exception / finally] as combinators of a small
    state-and-exception monad. *)

From stdpp Require Import gmap strings list pretty.
From Stdlib Require Import ZArith Ascii String Lia.

Local Open Scope Z_scope.

(** ** Python strings *)

Module PyStr.

(** [len(s)] *)
Definition len (s : string) : Z := Z.of_nat (String.length s).

(** [s[i:]] for [0 <= i]. *)
Fixpoint drop (n : nat) (s : string) : string :=
  match n, s with
  | O, _ => s
  | S _, EmptyString => EmptyString
  | S k, String _ t => drop k t
  end.

(** [s[:i]] for [0 <= i]. *)
Fixpoint take (n : nat) (s : string) : string :=
  match n, s with
  | O, _ => EmptyString
  | S _, EmptyString => EmptyString
  | S k, String c t => String c (take k t)
  end.

Definition slice_from (i : Z) (s : string) : string := drop (Z.to_nat i) s.
Definition slice_to (i : Z) (s : string) : string := take (Z.to_nat i) s.

(** [s.rfind(c)]: the highest index of [c] in [s], or [-1]. *)
Fixpoint rfind (c : ascii) (s : string) : Z :=
  match s with
  | EmptyString => -1
  | String a t =>
      let r := rfind c t in
      if 0 <=? r then r + 1
      else if Ascii.eqb a c then 0 else -1
  end.

(** [c in s] for a one-character [c]. *)
Fixpoint mem (c : ascii) (s : string) : bool :=
  match s with
  | EmptyString => false
  | String a t => Ascii.eqb a c || mem c t
  end.

(** [s.startswith(c)], [s.endswith(c)] for a one-character [c]. *)
Definition startswith (c : ascii) (s : string) : bool :=
  match s with
  | String a _ => Ascii.eqb a c
  | EmptyString => false
  end.

Fixpoint endswith (c : ascii) (s : string) : bool :=
  match s with
  | EmptyString => false
  | String a EmptyString => Ascii.eqb a c
  | String _ t => endswith c t
  end.

(** [s.split(c)] *)
Fixpoint split_go (c : ascii) (cur : string) (s : string) : list string :=
  match s with
  | EmptyString => [String.rev cur]
  | String a t =>
      if Ascii.eqb a c then String.rev cur :: split_go c EmptyString t
      else split_go c (String a cur) t
  end.

Definition split (c : ascii) (s : string) : list string :=
  split_go c EmptyString s.

(** [c.join(l)] *)
Fixpoint join (c : string) (l : list string) : string :=
  match l with
  | [] => EmptyString
  | [x] => x
  | x :: r => x +:+ c +:+ join c r
  end.

(** [s.lower()].  Only the ASCII letters change; on the byte strings of
    this model that is what [str.lower] does to every character whose
    lower-case form can occur in [.jpg], [.jpeg] or [.png]. *)
Definition lower_ascii (a : ascii) : ascii :=
  let n := N_of_ascii a in
  if ((65 <=? n) && (n <=? 90))%N then ascii_of_N (n + 32) else a.

Fixpoint lower (s : string) : string :=
  match s with
  | EmptyString => EmptyString
  | String a t => String (lower_ascii a) (lower t)
  end.

(** [s in l] for a list of strings. *)
Definition in_list (s : string) (l : list string) : bool :=
  existsb (String.eqb s) l.

(** [str(n)] for a non-negative integer. *)
Definition str_of_nat (n : nat) : string := pretty n.

End PyStr.

(** ** [pathlib.PurePosixPath] and [posixpath] *)

Module PosixPath.
Import PyStr.

Definition sep : ascii := "/"%char.
Definition dot : ascii := "."%char.

(** The parsed form [pathlib] keeps: the root and the components, the
    empty ones and ['.'] dropped. *)
Record Path := { root : string; parts : list string }.

Fixpoint lstrip_sep (s : string) : string :=
  match s with
  | String a t => if Ascii.eqb a sep then lstrip_sep t else s
  | EmptyString => EmptyString
  end.

(** [posixpath.splitroot]: exactly two leading slashes are kept. *)
Definition parse_root (s : string) : string :=
  match s with
  | String a (String b (String c _)) =>
      if Ascii.eqb a sep then
        if Ascii.eqb b sep then
          if Ascii.eqb c sep then "/" else "//"
        else "/"
      else ""
  | String a (String b EmptyString) =>
      if Ascii.eqb a sep then
        if Ascii.eqb b sep then "//" else "/"
      else ""
  | String a EmptyString => if Ascii.eqb a sep then "/" else ""
  | EmptyString => ""
  end.

Definition keep_part (x : string) : bool :=
  negb (String.eqb x "") && negb (String.eqb x ".").

(** [Path(s)] *)
Definition mkPath (s : string) : Path :=
  {| root := parse_root s;
     parts := filter (fun x => keep_part x = true) (split sep (lstrip_sep s)) |}.

(** [str(path)] *)
Definition to_str (p : Path) : string :=
  match root p, parts p with
  | EmptyString, [] => "."
  | r, l => r +:+ join "/" l
  end.

(** [path.name] *)
Definition name (p : Path) : string := List.last (parts p) "".

(** [path.suffix]:
    [i = name.rfind('.'); name[i:] if 0 < i < len(name) - 1 else ''] *)
Definition suffix (p : Path) : string :=
  let n := name p in
  let i := rfind dot n in
  if (0 <? i) && (i <? len n - 1) then slice_from i n else "".

(** [os.path.basename(p)]: [p[p.rfind('/') + 1:]] *)
Definition basename (p : string) : string :=
  slice_from (rfind sep p + 1) p.

(** [os.path.join(a, b)] *)
Definition join2 (a b : string) : string :=
  if startswith sep b then b
  else if String.eqb a "" || endswith sep a then a +:+ b
  else a +:+ "/" +:+ b.

(** What [os.path.join] puts in front of a relative second argument. *)
Definition join_prefix (a : string) : string :=
  if String.eqb a "" || endswith sep a then a else a +:+ "/".

(** [genericpath._splitext]: the extension starts at the last dot of the
    last component, unless only dots precede it there. *)
Fixpoint only_dots (s : string) : bool :=
  match s with
  | EmptyString => true
  | String a t => Ascii.eqb a dot && only_dots t
  end.

Definition splitext (p : string) : string * string :=
  let sepIndex := rfind sep p in
  let dotIndex := rfind dot p in
  if sepIndex <? dotIndex then
    let lead := slice_to (dotIndex - (sepIndex + 1)) (slice_from (sepIndex + 1) p) in
    if only_dots lead then (p, "")
    else (slice_to dotIndex p, slice_from dotIndex p)
  else (p, "").

End PosixPath.

Import PyStr PosixPath.

(** ** The machine: handler state, file system, console, external calls *)

(** The exceptions the handler can meet.  All are subclasses of
    [Exception]: [KeyError] from [set.remove], and whatever
    [subprocess.run] and [shutil.move] raise ([OSError] and the like). *)
Inductive exn :=
| KeyError (key : string)
| OSError (strerror : string).

(** [str(e)] ([repr] of the key for a [KeyError]). *)
Definition exn_str (e : exn) : string :=
  match e with
  | KeyError k => "'" +:+ k +:+ "'"
  | OSError m => m
  end.

(** How a call ends: it returns, it raises, or (a loop that never meets its
    exit test) it does not end. *)
Inductive outcome (A : Type) :=
| Ret (a : A)
| Raise (e : exn)
| Spin.
Arguments Ret {A} a.
Arguments Raise {A} e.
Arguments Spin {A}.

(** [ImageUploader.__init__]: the three settings and the in-flight set. *)
Record ImageUploader := {
  watch_folder : string;
  uploaded_folder : string;
  upload_url : string;
  processing_files : gset string
}.

Definition new_ImageUploader (w u url : string) : ImageUploader :=
  {| watch_folder := w; uploaded_folder := u; upload_url := url;
     processing_files := ∅ |}.

(** A created-file event of watchdog. *)
Record FileSystemEvent := { is_directory : bool; src_path : string }.

(** The calls that leave the process, in the order they are made. *)
Inductive call :=
| Sleep (seconds : Z)
| Run (argv : list string)
| Move (src dst : string).

Record machine := {
  self : ImageUploader;
  files : gset string;        (* the paths [os.path.exists] answers True for *)
  console : list string;      (* the lines printed so far *)
  calls : list call
}.

(** What [curl] met on the wire: a transport error (its exit code is not
    zero), or an HTTP response with its status. *)
Inductive transport :=
| TransportError (exit_code : positive) (diagnostic : string)
| HttpResponse (status : Z) (diagnostic : string).

(** [subprocess.CompletedProcess] *)
Record CompletedProcess := { returncode : Z; stderr : string }.

(** [curl]'s exit status: an HTTP response of any status ends with exit
    status 0, unless [-f]/[--fail] is given, which turns a status of 400 and
    above into exit status 22. *)
Definition has_fail_flag (argv : list string) : bool :=
  in_list "-f" argv || in_list "--fail" argv.

Definition curl (argv : list string) (t : transport) : CompletedProcess :=
  match t with
  | TransportError c d => {| returncode := Z.pos c; stderr := d |}
  | HttpResponse s d =>
      if has_fail_flag argv && (400 <=? s)
      then {| returncode := 22; stderr := d |}
      else {| returncode := 0; stderr := d |}
  end.

(** The world outside the process: what other programs do to the files
    while the handler sleeps; how [subprocess.run] ends ([inl]: it raises,
    the program cannot be started or its output cannot be decoded; [inr]:
    [curl] ran and met this on the wire); whether a move raises; and, for
    a move that raises, whether the destination had been created before
    the error ([shutil.move] falls back from [os.rename] to a copy followed
    by an unlink of the source, so it can fail with the copy made).  Each
    may depend on the calls made so far. *)
Record env := {
  during_sleep : list call -> gset string -> gset string;
  spawn : list string -> list call -> exn + transport;
  move_error : string -> string -> list call -> option exn;
  move_copied : string -> string -> list call -> bool
}.

(** ** The monad *)

Definition M (A : Type) : Type := machine -> outcome A * machine.

Definition ret {A} (a : A) : M A := fun m => (Ret a, m).

Definition bind {A B} (c : M A) (k : A -> M B) : M B :=
  fun m =>
    match c m with
    | (Ret a, m') => k a m'
    | (Raise e, m') => (Raise e, m')
    | (Spin, m') => (Spin, m')
    end.

Notation "'let*' x ':=' c 'in' k" := (bind c (fun x => k))
  (at level 10, x name, c at level 100, k at level 200).
Notation "c >> k" := (bind c (fun _ => k))
  (at level 100, k at level 200, right associativity).

(** [try: body  except Exception as e: handler(e)] *)
Definition try_except {A} (body : M A) (handler : exn -> M A) : M A :=
  fun m =>
    match body m with
    | (Raise e, m') => handler e m'
    | r => r
    end.

(** [try: body  finally: final].  The [finally] block runs after a return
    and after an exception; an exception of its own replaces the pending
    one. *)
Definition try_finally {A} (body : M A) (final : M unit) : M A :=
  fun m =>
    match body m with
    | (Ret a, m') =>
        match final m' with
        | (Ret _, m'') => (Ret a, m'')
        | (Raise e, m'') => (Raise e, m'')
        | (Spin, m'') => (Spin, m'')
        end
    | (Raise e, m') =>
        match final m' with
        | (Ret _, m'') => (Raise e, m'')
        | (Raise e', m'') => (Raise e', m'')
        | (Spin, m'') => (Spin, m'')
        end
    | (Spin, m') => (Spin, m')
    end.

(** The machine after each primitive step. *)
Definition printed (line : string) (m : machine) : machine :=
  {| self := self m; files := files m;
     console := console m ++ [line]; calls := calls m |}.

Definition called (c : call) (m : machine) : machine :=
  {| self := self m; files := files m;
     console := console m; calls := calls m ++ [c] |}.

Definition with_files (fs : gset string) (m : machine) : machine :=
  {| self := self m; files := fs; console := console m; calls := calls m |}.

Definition with_processing (s : gset string) (m : machine) : machine :=
  {| self := {| watch_folder := watch_folder (self m);
                uploaded_folder := uploaded_folder (self m);
                upload_url := upload_url (self m);
                processing_files := s |};
     files := files m; console := console m; calls := calls m |}.

Definition acquired (p : string) (m : machine) : machine :=
  with_processing ({[p]} ∪ processing_files (self m)) m.

Definition released (p : string) (m : machine) : machine :=
  with_processing (processing_files (self m) ∖ {[p]}) m.

(** Reading an attribute of [self]. *)
Definition get_self : M ImageUploader := fun m => (Ret (self m), m).

(** [print(line)].  The console is taken to accept every line: a [print]
    that raises (an encoding the console lacks, a closed pipe) is outside
    this model. *)
Definition print (line : string) : M unit :=
  fun m => (Ret tt, printed line m).

(** [os.path.exists(p)] *)
Definition os_path_exists (p : string) : M bool :=
  fun m => (Ret (bool_decide (p ∈ files m)), m).

(** [p in self.processing_files] *)
Definition processing_contains (p : string) : M bool :=
  fun m => (Ret (bool_decide (p ∈ processing_files (self m))), m).

(** [self.processing_files.add(p)] *)
Definition processing_add (p : string) : M unit :=
  fun m => (Ret tt, acquired p m).

(** [self.processing_files.remove(p)]: [set.remove] raises [KeyError] when
    the element is not in the set. *)
Definition processing_remove (p : string) : M unit :=
  fun m =>
    if bool_decide (p ∈ processing_files (self m))
    then (Ret tt, released p m)
    else (Raise (KeyError p), m).

(** ** The handler *)

(** [f"{base}_{counter}{ext}"] *)
Definition candidate (base ext : string) (counter : nat) : string :=
  base +:+ "_" +:+ str_of_nat counter +:+ ext.

(** [while os.path.exists(f"{base}_{counter}{ext}"): counter += 1], run
    for at most [fuel] tests; the result is the counter the loop ends
    with. *)
Fixpoint probe (fs : gset string) (base ext : string) (fuel counter : nat)
  : option nat :=
  match fuel with
  | O => None
  | S fuel' =>
      if bool_decide (candidate base ext counter ∈ fs)
      then probe fs base ext fuel' (S counter)
      else Some counter
  end.

(** Lines 72-81: the destination of the move in the archive folder. *)
Definition archive_destination (fuel : nat) (fs : gset string)
    (folder file_path : string) : option string :=
  let file_name := basename file_path in
  let destination := join2 folder file_name in
  if bool_decide (destination ∈ fs) then
    let '(base, ext) := splitext destination in
    match probe fs base ext fuel 1 with
    | Some counter => Some (candidate base ext counter)
    | None => None
    end
  else Some destination.

(** The tests of the loop only ask whether a path exists; a file system
    that holds [n] paths cannot make it run more than [n + 1] times (see
    [probe_terminates]). *)
Definition probe_fuel (fs : gset string) : nat := S (size fs).

(** The allow-list of line 37. *)
Definition image_suffixes : list string := [".jpg"; ".jpeg"; ".png"].

(** The test of line 37: [file_path.suffix.lower() in [...]]. *)
Definition is_image (file_path : Path) : bool :=
  in_list (lower (suffix file_path)) image_suffixes.

(** Lines 62-67. *)
Definition curl_command (file_path url : string) : list string :=
  ["curl"; "-X"; "POST"; "-F"; "imageFile=@" +:+ file_path; url].

Section Handler.
Variable E : env.

(** [time.sleep(seconds)]: the calling thread is suspended; the other
    programs change the files meanwhile. *)
Definition slept (seconds : Z) (m : machine) : machine :=
  called (Sleep seconds) (with_files (during_sleep E (calls m) (files m)) m).

Definition time_sleep (seconds : Z) : M unit :=
  fun m => (Ret tt, slept seconds m).

(** [subprocess.run(argv, capture_output=True, text=True)].  The call has
    no timeout; a [curl] that never ends is outside this model. *)
Definition subprocess_run (argv : list string) : M CompletedProcess :=
  fun m =>
    match spawn E argv (calls m) with
    | inl e => (Raise e, called (Run argv) m)
    | inr t => (Ret (curl argv t), called (Run argv) m)
    end.

(** [shutil.move(src, dst)].  A move that raises leaves the source in
    place (the unlink is its last step); the destination may exist by
    then. *)
Definition shutil_move (src dst : string) : M unit :=
  fun m =>
    match move_error E src dst (calls m) with
    | Some e =>
        (Raise e,
         called (Move src dst)
           (if move_copied E src dst (calls m)
            then with_files ({[dst]} ∪ files m) m
            else m))
    | None =>
        (Ret tt,
         called (Move src dst) (with_files ({[dst]} ∪ (files m ∖ {[src]})) m))
    end.

(** Lines 72-81 on the current files. *)
Definition choose_destination (file_path : string) : M string :=
  fun m =>
    match archive_destination (probe_fuel (files m)) (files m)
            (uploaded_folder (self m)) file_path with
    | Some d => (Ret d, m)
    | None => (Spin, m)
    end.

(** Lines 57-88, the body of the [try]. *)
Definition upload_body (file_path : string) : M unit :=
  let* present := os_path_exists file_path in
  if negb present then
    print ("File no longer exists: " +:+ file_path)
  else
    let* this := get_self in
    let* result := subprocess_run (curl_command file_path (upload_url this)) in
    if returncode result =? 0 then
      let file_name := basename file_path in
      let* destination := choose_destination file_path in
      shutil_move file_path destination >>
      print ("Successfully uploaded and moved: " +:+ file_name)
    else
      print ("Failed to upload: " +:+ file_path) >>
      print ("Error: " +:+ stderr result).

(** [ImageUploader.upload_file] *)
Definition upload_file (file_path : string) : M unit :=
  try_finally
    (try_except
       (upload_body file_path)
       (fun e =>
          print ("Error processing " +:+ file_path +:+ ": " +:+ exn_str e)))
    (processing_remove file_path).

(** [ImageUploader.on_created] *)
Definition on_created (event : FileSystemEvent) : M unit :=
  if negb (is_directory event) then
    let file_path := mkPath (src_path event) in
    if is_image file_path then
      let* busy := processing_contains (to_str file_path) in
      if negb busy then
        processing_add (to_str file_path) >>
        time_sleep 30 >>
        upload_file (to_str file_path)
      else ret tt
    else ret tt
  else ret tt.

(** The observer's dispatcher thread takes the queued events one at a time
    and calls the handler for each; the next event is taken when the
    handler has returned. *)
Fixpoint dispatch_events (events : list FileSystemEvent) : M unit :=
  match events with
  | [] => ret tt
  | event :: rest => on_created event >> dispatch_events rest
  end.

End Handler.

(** ** Observations on a run *)

(** The path an event is filed under in [processing_files]. *)
Definition event_key (event : FileSystemEvent) : string :=
  to_str (mkPath (src_path event)).

(** An event that passes the tests of lines 35 and 37. *)
Definition eligible (event : FileSystemEvent) : bool :=
  negb (is_directory event) && is_image (mkPath (src_path event)).

(** A call that uploads [p]. *)
Definition is_upload_of (p : string) (c : call) : bool :=
  match c with
  | Run argv => in_list ("imageFile=@" +:+ p) argv
  | _ => false
  end.

Definition upload_attempts (p : string) (cs : list call) : nat :=
  List.length (List.filter (is_upload_of p) cs).

(** The seconds the thread has slept when the upload of [p] starts. *)
Fixpoint slept_before_upload (p : string) (cs : list call) : option Z :=
  match cs with
  | [] => None
  | c :: rest =>
      if is_upload_of p c then Some 0
      else match slept_before_upload p rest, c with
           | Some t, Sleep s => Some (s + t)
           | r, _ => r
           end
  end.

(** The transport ended with an HTTP status of success. *)
Definition http_success (t : transport) : bool :=
  match t with
  | HttpResponse s _ => (200 <=? s) && (s <? 300)
  | TransportError _ _ => false
  end.

(** The seconds slept in a list of calls. *)
Fixpoint total_sleep (cs : list call) : Z :=
  match cs with
  | [] => 0
  | Sleep s :: rest => s + total_sleep rest
  | _ :: rest => total_sleep rest
  end.

(** The machine a raising move leaves. *)
Definition after_failed_move (E : env) (p d : string) (m : machine) : machine :=
  called (Move p d)
    (if move_copied E p d
          (calls m ++ [Run (curl_command p (upload_url (self m)))])
     then with_files ({[d]} ∪ files m)
            (called (Run (curl_command p (upload_url (self m)))) m)
     else called (Run (curl_command p (upload_url (self m)))) m).

(** The five ways through lines 57-91, each with the machine it leaves
    before the [finally] block: the file is gone; [curl] cannot be started;
    [curl] ends with a non-zero exit status; the move raises; the file is
    archived. *)
Inductive attempt_ends (E : env) (p : string) (m : machine) : machine -> Prop :=
| Vanished :
    p ∉ files m ->
    attempt_ends E p m (printed ("File no longer exists: " +:+ p) m)
| NotStarted (e : exn) :
    p ∈ files m ->
    spawn E (curl_command p (upload_url (self m))) (calls m) = inl e ->
    attempt_ends E p m
      (printed ("Error processing " +:+ p +:+ ": " +:+ exn_str e)
         (called (Run (curl_command p (upload_url (self m)))) m))
| Failed (t : transport) :
    p ∈ files m ->
    spawn E (curl_command p (upload_url (self m))) (calls m) = inr t ->
    returncode (curl (curl_command p (upload_url (self m))) t) <> 0 ->
    attempt_ends E p m
      (printed ("Error: " +:+ stderr (curl (curl_command p (upload_url (self m))) t))
         (printed ("Failed to upload: " +:+ p)
            (called (Run (curl_command p (upload_url (self m)))) m)))
| MoveRaised (t : transport) (d : string) (e : exn) :
    p ∈ files m ->
    spawn E (curl_command p (upload_url (self m))) (calls m) = inr t ->
    returncode (curl (curl_command p (upload_url (self m))) t) = 0 ->
    archive_destination (probe_fuel (files m)) (files m)
      (uploaded_folder (self m)) p = Some d ->
    move_error E p d
      (calls m ++ [Run (curl_command p (upload_url (self m)))]) = Some e ->
    attempt_ends E p m
      (printed ("Error processing " +:+ p +:+ ": " +:+ exn_str e)
         (after_failed_move E p d m))
| Archived (t : transport) (d : string) :
    p ∈ files m ->
    spawn E (curl_command p (upload_url (self m))) (calls m) = inr t ->
    returncode (curl (curl_command p (upload_url (self m))) t) = 0 ->
    archive_destination (probe_fuel (files m)) (files m)
      (uploaded_folder (self m)) p = Some d ->
    move_error E p d
      (calls m ++ [Run (curl_command p (upload_url (self m)))]) = None ->
    attempt_ends E p m
      (printed ("Successfully uploaded and moved: " +:+ basename p)
         (called (Move p d)
            (with_files ({[d]} ∪ (files m ∖ {[p]}))
               (called (Run (curl_command p (upload_url (self m)))) m)))).

(** ** Scenarios *)

Definition cam : ImageUploader :=
  new_ImageUploader "/cam" "/cam/uploaded" "https://example.org/upload.php".

Definition machine_of (h : ImageUploader) (fs : list string) : machine :=
  {| self := h; files := list_to_set fs; console := []; calls := [] |}.

(** The path is in flight. *)
Definition in_flight (p : string) (fs : list string) : machine :=
  acquired p (machine_of cam fs).

(** Nothing else touches the files, [curl] meets [t], every move works. *)
Definition still_env (t : transport) : env :=
  {| during_sleep := fun _ fs => fs;
     spawn := fun _ _ => inr t;
     move_error := fun _ _ _ => None;
     move_copied := fun _ _ _ => false |}.

Definition created (p : string) : FileSystemEvent :=
  {| is_directory := false; src_path := p |}.

Definition photo : string := "/cam/photo.jpg".

(** The server answers 200; the server answers 500; the connection is
    refused. *)
Definition served : env := still_env (HttpResponse 200 "").
Definition server_error : env := still_env (HttpResponse 500 "").
Definition refused : env :=
  still_env (TransportError 7 "curl: (7) Failed to connect").

(** The upload works but the move is refused. *)
Definition read_only_archive : env :=
  {| during_sleep := fun _ fs => fs;
     spawn := fun _ _ => inr (HttpResponse 200 "");
     move_error := fun _ _ _ => Some (OSError "[Errno 13] Permission denied");
     move_copied := fun _ _ _ => false |}.

(** The upload works; the move copies the file and then fails to remove
    the source. *)
Definition locked_source : env :=
  {| during_sleep := fun _ fs => fs;
     spawn := fun _ _ => inr (HttpResponse 200 "");
     move_error := fun _ _ _ => Some (OSError "[Errno 13] Permission denied");
     move_copied := fun _ _ _ => true |}.

(** The archive already holds [photo.jpg] and [photo_1.jpg]. *)
Definition crowded_archive : gset string :=
  list_to_set ["/cam/uploaded/photo.jpg"; "/cam/uploaded/photo_1.jpg"].

(** Two files created one after the other. *)
Definition first_file : string := "/cam/a.jpg".
Definition second_file : string := "/cam/b.png".
Definition two_files : machine := machine_of cam [first_file; second_file].

(** [curl] is not installed. *)
Definition no_curl : env :=
  {| during_sleep := fun _ fs => fs;
     spawn := fun _ _ => inl (OSError "[Errno 2] No such file or directory: 'curl'");
     move_error := fun _ _ _ => None;
     move_copied := fun _ _ _ => false |}.

(** * The path functions on sample paths *)

Example suffix_samples :
  suffix (mkPath "/cam/x.tar.JPG") = ".JPG" /\
  suffix (mkPath "/cam/.jpg") = "" /\
  suffix (mkPath "/cam/photo.") = "" /\
  suffix (mkPath "/cam/photo") = "".
Proof. repeat split. Qed.

Example to_str_samples :
  to_str (mkPath "/cam//a/./b.JPG/") = "/cam/a/b.JPG" /\
  to_str (mkPath "") = "." /\
  to_str (mkPath "//a") = "//a" /\
  to_str (mkPath "///a") = "/a".
Proof. repeat split. Qed.

Example os_path_samples :
  basename "/cam/a.jpg" = "a.jpg" /\
  join2 "/up" "a.jpg" = "/up/a.jpg" /\
  join2 "/up/" "a.jpg" = "/up/a.jpg" /\
  splitext "/up.d/a" = ("/up.d/a", "") /\
  splitext "/up.d/.a" = ("/up.d/.a", "") /\
  splitext "/up.d/a.tar.gz" = ("/up.d/a.tar", ".gz").
Proof. repeat split. Qed.

(** * String facts *)

Section StringFacts.

Local Arguments String.append !_ _ / : simpl nomatch.

Lemma str_length_app (a b : string) :
  String.length (a +:+ b) = (String.length a + String.length b)%nat.
Proof. induction a as [|x a IH]; simpl; [reflexivity | now rewrite IH]. Qed.

Lemma str_app_assoc (a b c : string) : (a +:+ b) +:+ c = a +:+ (b +:+ c).
Proof. induction a as [|x a IH]; simpl; [reflexivity | now rewrite IH]. Qed.

Lemma str_app_nil_r (a : string) : a +:+ "" = a.
Proof. induction a as [|x a IH]; simpl; [reflexivity | now rewrite IH]. Qed.

Lemma str_app_inv_tail (t a b : string) : a +:+ t = b +:+ t -> a = b.
Proof.
  revert b. induction a as [|x a IH]; intros [|y b] H; simpl in H.
  - reflexivity.
  - apply (f_equal String.length) in H. simpl in H.
    rewrite str_length_app in H. lia.
  - apply (f_equal String.length) in H. simpl in H.
    rewrite str_length_app in H. lia.
  - injection H as -> H. f_equal. now apply IH.
Qed.

Lemma len_app (a b : string) : len (a +:+ b) = len a + len b.
Proof. unfold len. rewrite str_length_app. lia. Qed.

Lemma len_nonneg (s : string) : 0 <= len s.
Proof. unfold len. lia. Qed.

Lemma rfind_bounds (c : ascii) (s : string) : -1 <= rfind c s < len s.
Proof.
  induction s as [|a t IH]; simpl.
  - unfold len. simpl. lia.
  - unfold len in *. simpl String.length.
    destruct (0 <=? rfind c t) eqn:Hr.
    + apply Z.leb_le in Hr. lia.
    + destruct (Ascii.eqb a c); lia.
Qed.

Lemma rfind_absent (c : ascii) (s : string) :
  rfind c s = -1 <-> mem c s = false.
Proof.
  induction s as [|a t IH]; simpl.
  - tauto.
  - pose proof (rfind_bounds c t) as Hb.
    destruct (0 <=? rfind c t) eqn:Hr.
    + apply Z.leb_le in Hr. split.
      * lia.
      * intros H. apply orb_false_elim in H as [_ H].
        apply IH in H. lia.
    + apply Z.leb_gt in Hr.
      assert (Ht : rfind c t = -1) by lia.
      apply IH in Ht. rewrite Ht, orb_false_r.
      destruct (Ascii.eqb a c); split; intros H; try reflexivity;
        try discriminate; lia.
Qed.

Lemma rfind_app (c : ascii) (a b : string) :
  rfind c (a +:+ b) =
  if 0 <=? rfind c b then len a + rfind c b else rfind c a.
Proof.
  induction a as [|x a IH]; simpl.
  - pose proof (rfind_bounds c b).
    destruct (0 <=? rfind c b) eqn:Hr; [unfold len; simpl; lia|].
    apply Z.leb_gt in Hr. lia.
  - rewrite IH. pose proof (rfind_bounds c b). pose proof (len_nonneg a).
    destruct (0 <=? rfind c b) eqn:Hr.
    + apply Z.leb_le in Hr.
      replace (0 <=? len a + rfind c b) with true
        by (symmetry; apply Z.leb_le; lia).
      unfold len. simpl String.length. lia.
    + reflexivity.
Qed.

Lemma mem_app (c : ascii) (a b : string) :
  mem c (a +:+ b) = mem c a || mem c b.
Proof.
  induction a as [|x a IH]; simpl; [reflexivity|].
  rewrite IH. now rewrite orb_assoc.
Qed.

Lemma drop_app (n : nat) (a b : string) :
  drop (String.length a + n) (a +:+ b) = drop n b.
Proof. induction a as [|x a IH]; simpl; [reflexivity | exact IH]. Qed.

Lemma take_app (n : nat) (a b : string) :
  take (String.length a + n) (a +:+ b) = a +:+ take n b.
Proof. induction a as [|x a IH]; simpl; [reflexivity | now rewrite IH]. Qed.

Lemma drop_0 (s : string) : drop 0 s = s.
Proof. now destruct s. Qed.

Lemma take_drop (n : nat) (s : string) : take n s +:+ drop n s = s.
Proof.
  revert s. induction n as [|n IH]; intros [|a t]; simpl; try reflexivity.
  now rewrite IH.
Qed.

Lemma mem_take (c : ascii) (n : nat) (s : string) :
  mem c s = false -> mem c (take n s) = false.
Proof.
  revert s. induction n as [|n IH]; intros [|a t]; simpl; try reflexivity.
  intros H. apply orb_false_elim in H as [-> H]. simpl. now apply IH.
Qed.

Lemma mem_drop (c : ascii) (n : nat) (s : string) :
  mem c s = false -> mem c (drop n s) = false.
Proof.
  revert s. induction n as [|n IH]; intros [|a t]; simpl; try tauto.
  intros H. apply orb_false_elim in H as [_ H]. now apply IH.
Qed.

(** [os.path.basename] never leaves a separator in its result. *)
Lemma basename_no_sep (p : string) : mem sep (basename p) = false.
Proof.
  unfold basename, slice_from.
  induction p as [|a t IH]; simpl; [reflexivity|].
  pose proof (rfind_bounds sep t) as Hb.
  destruct (0 <=? rfind sep t) eqn:Hr.
  - apply Z.leb_le in Hr.
    replace (Z.to_nat (rfind sep t + 1 + 1)) with (S (Z.to_nat (rfind sep t + 1)))
      by lia.
    exact IH.
  - apply Z.leb_gt in Hr.
    assert (Ht : rfind sep t = -1) by lia.
    apply rfind_absent in Ht.
    destruct (Ascii.eqb a sep) eqn:Ha; simpl.
    + destruct t; exact Ht.
    + now rewrite Ha, Ht.
Qed.

Lemma basename_of_name (n : string) : mem sep n = false -> basename n = n.
Proof.
  intros H. unfold basename, slice_from.
  apply rfind_absent in H. rewrite H. simpl. apply drop_0.
Qed.

End StringFacts.

(** * The archive name *)

Section ArchiveFacts.

Local Arguments String.append !_ _ / : simpl nomatch.

Lemma startswith_no_sep (b : string) : mem sep b = false -> startswith sep b = false.
Proof. destruct b as [|x b]; simpl; [reflexivity|]. intros H. now apply orb_false_elim in H. Qed.

Lemma join2_prefix (a b : string) :
  startswith sep b = false -> join2 a b = join_prefix a +:+ b.
Proof.
  intros H. unfold join2, join_prefix. rewrite H.
  destruct (String.eqb a "" || endswith sep a); [reflexivity|].
  now rewrite str_app_assoc.
Qed.

Lemma endswith_split (c : ascii) (a : string) :
  endswith c a = true -> exists d, a = d +:+ String c "".
Proof.
  induction a as [|x a IH]; simpl; [discriminate|].
  destruct a as [|y a].
  - intros H. apply Ascii.eqb_eq in H. subst. now exists "".
  - intros H. destruct (IH H) as [d Hd]. exists (String x d).
    simpl. now rewrite <- Hd.
Qed.

Lemma join_prefix_shape (a : string) :
  join_prefix a = "" \/ exists d, join_prefix a = d +:+ "/".
Proof.
  unfold join_prefix.
  destruct (String.eqb a "") eqn:Ha; simpl.
  - apply String.eqb_eq in Ha. now left.
  - right. destruct (endswith sep a) eqn:He.
    + now apply endswith_split in He.
    + now exists a.
Qed.

(** Splitting [folder/name] splits the name: the folder part is never
    looked at. *)
Lemma splitext_prefix (pre n : string) :
  pre = "" \/ (exists d, pre = d +:+ "/") ->
  mem sep n = false ->
  splitext (pre +:+ n) = (pre +:+ fst (splitext n), snd (splitext n)).
Proof.
  intros [-> | [d ->]] Hn.
  - simpl. now destruct (splitext n).
  - pose proof Hn as Hs. apply rfind_absent in Hs.
    pose proof (rfind_bounds dot n) as Hdn.
    pose proof (rfind_bounds dot d) as Hdd.
    pose proof (len_nonneg d) as Hld.
    assert (Hsep : rfind sep ((d +:+ "/") +:+ n) = len d).
    { rewrite rfind_app, Hs. simpl (0 <=? -1).
      rewrite rfind_app. simpl. lia. }
    assert (Hdotpre : rfind dot (d +:+ "/") = rfind dot d).
    { rewrite rfind_app. reflexivity. }
    assert (Hlen : len (d +:+ "/") = len d + 1).
    { rewrite len_app. reflexivity. }
    unfold splitext. rewrite Hsep, Hs.
    rewrite (rfind_app dot (d +:+ "/") n), Hdotpre, Hlen.
    destruct (0 <=? rfind dot n) eqn:Hi.
    + apply Z.leb_le in Hi.
      replace (len d <? len d + 1 + rfind dot n) with true
        by (symmetry; apply Z.ltb_lt; lia).
      replace (-1 <? rfind dot n) with true
        by (symmetry; apply Z.ltb_lt; lia).
      unfold slice_to, slice_from.
      replace (Z.to_nat (len d + 1))
        with (String.length (d +:+ "/") + 0)%nat
        by (unfold len in *; rewrite str_length_app; simpl; lia).
      rewrite drop_app.
      replace (Z.to_nat (len d + 1 + rfind dot n - (len d + 1)))
        with (Z.to_nat (rfind dot n)) by lia.
      replace (Z.to_nat (-1 + 1)) with 0%nat by reflexivity.
      replace (Z.to_nat (rfind dot n - (-1 + 1))) with (Z.to_nat (rfind dot n))
        by lia.
      rewrite !drop_0.
      destruct (only_dots (take (Z.to_nat (rfind dot n)) n)); [reflexivity|].
      replace (Z.to_nat (len d + 1 + rfind dot n))
        with (String.length (d +:+ "/") + Z.to_nat (rfind dot n))%nat
        by (unfold len in *; rewrite str_length_app; simpl; lia).
      now rewrite take_app, drop_app.
    + apply Z.leb_gt in Hi.
      replace (len d <? rfind dot d) with false
        by (symmetry; apply Z.ltb_ge; lia).
      replace (-1 <? rfind dot n) with false
        by (symmetry; apply Z.ltb_ge; lia).
      reflexivity.
Qed.

Lemma splitext_no_sep (n : string) :
  mem sep n = false -> mem sep (fst (splitext n)) = false.
Proof.
  intros H. unfold splitext.
  destruct (rfind sep n <? rfind dot n); [|exact H].
  destruct (only_dots _); [exact H|].
  simpl. unfold slice_to. now apply mem_take.
Qed.

(** The base and the extension put together give the name back. *)
Lemma splitext_join (n : string) :
  fst (splitext n) +:+ snd (splitext n) = n.
Proof.
  unfold splitext.
  destruct (rfind sep n <? rfind dot n); [|apply str_app_nil_r].
  destruct (only_dots _); [apply str_app_nil_r|].
  simpl. unfold slice_to, slice_from. apply take_drop.
Qed.

Lemma candidate_prefix (pre b e : string) (k : nat) :
  candidate (pre +:+ b) e k = pre +:+ candidate b e k.
Proof. unfold candidate. now rewrite str_app_assoc. Qed.

Lemma candidate_no_leading_sep (b e : string) (k : nat) :
  mem sep b = false -> startswith sep (candidate b e k) = false.
Proof.
  unfold candidate. destruct b as [|x b]; simpl; [reflexivity|].
  intros H. now apply orb_false_elim in H.
Qed.

Lemma candidate_inj (b e : string) (j k : nat) :
  candidate b e j = candidate b e k -> j = k.
Proof.
  unfold candidate. intros H.
  apply (inj (String.append b)) in H.
  simpl in H. injection H as H.
  apply str_app_inv_tail in H.
  unfold str_of_nat in H. now apply (inj pretty) in H.
Qed.

Lemma probe_Some (fs : gset string) (b e : string) (fuel c k : nat) :
  probe fs b e fuel c = Some k ->
  (c <= k)%nat /\ (candidate b e k ∉ fs) /\
  forall j, (c <= j < k)%nat -> candidate b e j ∈ fs.
Proof.
  revert c. induction fuel as [|fuel IH]; intros c; simpl; [discriminate|].
  case_bool_decide as Hc.
  - intros H. destruct (IH _ H) as (Hle & Hk & Hj).
    split; [lia|]. split; [exact Hk|].
    intros j Hr. destruct (decide (j = c)) as [->|Hne]; [exact Hc|].
    apply Hj. lia.
  - intros H. injection H as <-. split; [lia|]. split; [exact Hc|].
    intros j Hr. lia.
Qed.

Lemma probe_None (fs : gset string) (b e : string) (fuel c : nat) :
  probe fs b e fuel c = None ->
  forall j, (c <= j < c + fuel)%nat -> candidate b e j ∈ fs.
Proof.
  revert c. induction fuel as [|fuel IH]; intros c; simpl.
  - intros _ j Hr. lia.
  - case_bool_decide as Hc; [|discriminate].
    intros H j Hr. destruct (decide (j = c)) as [->|Hne]; [exact Hc|].
    apply (IH _ H). lia.
Qed.

(** More names than the directory holds cannot all be taken. *)
Lemma candidates_bounded (fs : gset string) (b e : string) (c n : nat) :
  (forall j, (c <= j < c + n)%nat -> candidate b e j ∈ fs) ->
  (n <= size fs)%nat.
Proof.
  intros H.
  assert (Hsub : (list_to_set (candidate b e <$> seq c n) : gset string) ⊆ fs).
  { intros x Hx. apply elem_of_list_to_set in Hx.
    apply list_elem_of_fmap in Hx as (j & -> & Hj).
    apply elem_of_seq in Hj. apply H. lia. }
  apply subseteq_size in Hsub.
  rewrite size_list_to_set in Hsub.
  - now rewrite length_fmap, length_seq in Hsub.
  - apply NoDup_fmap_2; [|apply NoDup_seq].
    intros j k. apply candidate_inj.
Qed.

Lemma probe_terminates (fs : gset string) (b e : string) (fuel c : nat) :
  (size fs < fuel)%nat -> exists k, probe fs b e fuel c = Some k.
Proof.
  intros Hf. destruct (probe fs b e fuel c) as [k|] eqn:Hp; [now exists k|].
  pose proof (candidates_bounded fs b e c fuel (probe_None _ _ _ _ _ Hp)). lia.
Qed.

(** The loop's result does not depend on the fuel, once there is enough. *)
Lemma probe_fuel_irrelevant (fs : gset string) (b e : string) (f1 f2 c k : nat) :
  probe fs b e f1 c = Some k -> (f1 <= f2)%nat -> probe fs b e f2 c = Some k.
Proof.
  revert f2 c. induction f1 as [|f1 IH]; intros f2 c; simpl; [discriminate|].
  intros H Hle. destruct f2 as [|f2]; [lia|]. simpl.
  case_bool_decide; [|exact H]. apply IH; [exact H | lia].
Qed.

Lemma archive_candidate (folder n : string) (j : nat) :
  mem sep n = false ->
  candidate (join_prefix folder +:+ fst (splitext n)) (snd (splitext n)) j =
  join2 folder (candidate (fst (splitext n)) (snd (splitext n)) j).
Proof.
  intros Hn. rewrite candidate_prefix. symmetry. apply join2_prefix.
  apply candidate_no_leading_sep. now apply splitext_no_sep.
Qed.

(** The destination on a taken name, in terms of the loop. *)
Lemma archive_destination_taken (fuel : nat) (fs : gset string)
    (folder file_path : string) :
  let n := basename file_path in
  join2 folder n ∈ fs ->
  archive_destination fuel fs folder file_path =
  match probe fs (join_prefix folder +:+ fst (splitext n)) (snd (splitext n)) fuel 1 with
  | Some k => Some (join2 folder (candidate (fst (splitext n)) (snd (splitext n)) k))
  | None => None
  end.
Proof.
  intros n Hin. pose proof (basename_no_sep file_path) as Hn. fold n in Hn.
  unfold archive_destination. fold n.
  rewrite bool_decide_eq_true_2 by exact Hin.
  rewrite (join2_prefix folder n) by now apply startswith_no_sep.
  rewrite splitext_prefix by (try apply join_prefix_shape; exact Hn).
  destruct (probe _ _ _ fuel 1) as [k|]; [|reflexivity].
  now rewrite archive_candidate.
Qed.

(** The destination on a taken name: the first free numbered name. *)
Lemma archive_destination_numbered (fuel : nat) (fs : gset string)
    (folder file_path : string) :
  let n := basename file_path in
  let numbered k :=
    join2 folder (candidate (fst (splitext n)) (snd (splitext n)) k) in
  (size fs < fuel)%nat ->
  join2 folder n ∈ fs ->
  exists k, (1 <= k)%nat /\
    archive_destination fuel fs folder file_path = Some (numbered k) /\
    (numbered k ∉ fs) /\
    forall j, (1 <= j < k)%nat -> numbered j ∈ fs.
Proof.
  intros n numbered Hfuel Hin.
  pose proof (basename_no_sep file_path) as Hn. fold n in Hn.
  rewrite (archive_destination_taken fuel fs folder file_path Hin). fold n.
  destruct (probe_terminates fs (join_prefix folder +:+ fst (splitext n))
              (snd (splitext n)) fuel 1 Hfuel) as [k Hk].
  rewrite Hk. apply probe_Some in Hk as (Hle & Hfree & Hbelow).
  exists k. split; [exact Hle|]. split; [reflexivity|].
  unfold numbered. split.
  - now rewrite <- archive_candidate.
  - intros j Hj. rewrite <- archive_candidate by exact Hn. now apply Hbelow.
Qed.

Lemma archive_destination_free (fuel : nat) (fs : gset string)
    (folder file_path : string) :
  join2 folder (basename file_path) ∉ fs ->
  archive_destination fuel fs folder file_path =
  Some (join2 folder (basename file_path)).
Proof.
  intros Hfree. unfold archive_destination.
  now rewrite bool_decide_eq_false_2.
Qed.

(** The loop of lines 79-80 always ends. *)
Lemma archive_destination_total (fs : gset string) (folder p : string) :
  exists d, archive_destination (probe_fuel fs) fs folder p = Some d.
Proof.
  destruct (decide (join2 folder (basename p) ∈ fs)) as [Hin|Hout].
  - destruct (archive_destination_numbered (probe_fuel fs) fs folder p)
      as (k & _ & Hd & _); [unfold probe_fuel; lia|exact Hin|].
    eauto.
  - rewrite archive_destination_free by exact Hout. eauto.
Qed.

(** C3.  The archive destination is [folder/name] when that name is free;
    otherwise the name is split into base and extension and the destination
    is the first of [base_1.ext], [base_2.ext], ... that does not exist in
    the folder.  With [name.ext] taken and [name_1.ext] free the result is
    [name_1.ext]; with both taken and [name_2.ext] free it is [name_2.ext].
    The loop ends within [size fs + 1] tests. *)
Theorem archive_destination_first_free (fuel : nat) (fs : gset string)
    (folder file_path : string) :
  let n := basename file_path in
  let base := fst (splitext n) in
  let ext := snd (splitext n) in
  let numbered k := join2 folder (candidate base ext k) in
  (size fs < fuel)%nat ->
  base +:+ ext = n /\
  (join2 folder n ∉ fs ->
   archive_destination fuel fs folder file_path = Some (join2 folder n)) /\
  (join2 folder n ∈ fs ->
   exists k, (1 <= k)%nat /\
     archive_destination fuel fs folder file_path = Some (numbered k) /\
     (numbered k ∉ fs) /\
     forall j, (1 <= j < k)%nat -> numbered j ∈ fs) /\
  (join2 folder n ∈ fs -> numbered 1%nat ∉ fs ->
   archive_destination fuel fs folder file_path = Some (numbered 1%nat)) /\
  (join2 folder n ∈ fs -> numbered 1%nat ∈ fs -> numbered 2%nat ∉ fs ->
   archive_destination fuel fs folder file_path = Some (numbered 2%nat)).
Proof.
  intros n base ext numbered Hfuel.
  pose proof (archive_destination_numbered fuel fs folder file_path Hfuel)
    as Hgen. fold n base ext numbered in Hgen.
  split; [apply splitext_join|].
  split; [apply archive_destination_free|split; [exact Hgen|split]].
  - intros Hin H1. destruct (Hgen Hin) as (k & Hle & -> & Hk & Hbelow).
    destruct (decide (k = 1%nat)) as [->|Hne]; [reflexivity|].
    exfalso. apply H1, Hbelow. lia.
  - intros Hin H1 H2. destruct (Hgen Hin) as (k & Hle & -> & Hk & Hbelow).
    destruct (decide (k = 1%nat)) as [->|Hne1]; [contradiction|].
    destruct (decide (k = 2%nat)) as [->|Hne2]; [reflexivity|].
    exfalso. apply H2, Hbelow. lia.
Qed.

End ArchiveFacts.

(** * The upload routine, case by case *)

Section UploadFacts.
Variable E : env.

Lemma upload_body_vanished (p : string) (m : machine) :
  p ∉ files m ->
  upload_body E p m = (Ret tt, printed ("File no longer exists: " +:+ p) m).
Proof.
  intros H. unfold upload_body, bind, os_path_exists.
  now rewrite bool_decide_eq_false_2.
Qed.

Lemma upload_body_spawn_error (p : string) (m : machine) (e : exn) :
  p ∈ files m ->
  spawn E (curl_command p (upload_url (self m))) (calls m) = inl e ->
  upload_body E p m =
  (Raise e, called (Run (curl_command p (upload_url (self m)))) m).
Proof.
  intros H Hs. unfold upload_body, bind, os_path_exists, get_self, subprocess_run.
  rewrite bool_decide_eq_true_2 by exact H. simpl. now rewrite Hs.
Qed.

Lemma upload_body_failure (p : string) (m : machine) (t : transport) :
  let argv := curl_command p (upload_url (self m)) in
  p ∈ files m ->
  spawn E argv (calls m) = inr t ->
  returncode (curl argv t) <> 0 ->
  upload_body E p m =
  (Ret tt, printed ("Error: " +:+ stderr (curl argv t))
             (printed ("Failed to upload: " +:+ p) (called (Run argv) m))).
Proof.
  intros argv H Hs Hrc.
  unfold upload_body, bind, os_path_exists, get_self, subprocess_run.
  rewrite bool_decide_eq_true_2 by exact H. simpl. fold argv. rewrite Hs.
  apply Z.eqb_neq in Hrc. now rewrite Hrc.
Qed.

Lemma after_failed_move_frame (p d : string) (m : machine) :
  let argv := curl_command p (upload_url (self m)) in
  self (after_failed_move E p d m) = self m /\
  console (after_failed_move E p d m) = console m /\
  calls (after_failed_move E p d m) = (calls m ++ [Run argv; Move p d])%list /\
  files (after_failed_move E p d m) =
    (if move_copied E p d (calls m ++ [Run argv])
     then {[d]} ∪ files m else files m).
Proof.
  intros argv. unfold after_failed_move. fold argv.
  destruct (move_copied E p d (calls m ++ [Run argv])); simpl;
    rewrite <- app_assoc; auto.
Qed.

Lemma upload_body_success (p d : string) (m : machine) (t : transport) :
  let argv := curl_command p (upload_url (self m)) in
  p ∈ files m ->
  spawn E argv (calls m) = inr t ->
  returncode (curl argv t) = 0 ->
  archive_destination (probe_fuel (files m)) (files m)
    (uploaded_folder (self m)) p = Some d ->
  upload_body E p m =
  match move_error E p d (calls m ++ [Run argv]) with
  | Some e => (Raise e, after_failed_move E p d m)
  | None =>
      (Ret tt,
       printed ("Successfully uploaded and moved: " +:+ basename p)
         (called (Move p d)
            (with_files ({[d]} ∪ (files m ∖ {[p]})) (called (Run argv) m))))
  end.
Proof.
  intros argv H Hs Hrc Hd.
  unfold upload_body, bind, os_path_exists, get_self, subprocess_run.
  rewrite bool_decide_eq_true_2 by exact H. simpl. fold argv. rewrite Hs.
  rewrite Hrc. simpl. unfold choose_destination. simpl. rewrite Hd.
  unfold shutil_move. simpl.
  now destruct (move_error E p d (calls m ++ [Run argv])).
Qed.

(** What the body of the [try] can do, whatever the world does: it ends,
    it leaves [self] alone, and it only adds calls, at most one of them
    an upload. *)
Lemma upload_body_total (p : string) (m : machine) :
  exists r m' tr,
    upload_body E p m = (r, m') /\ r <> Spin /\ self m' = self m /\
    calls m' = calls m ++ tr /\
    (upload_attempts p tr <= 1)%nat /\
    (p ∈ files m -> upload_attempts p tr = 1%nat) /\
    (p ∉ files m -> tr = []).
Proof.
  set (argv := curl_command p (upload_url (self m))).
  assert (Hup : is_upload_of p (Run argv) = true).
  { unfold is_upload_of, argv, curl_command, in_list.
    apply existsb_exists. exists ("imageFile=@" +:+ p).
    split; [simpl; tauto | apply String.eqb_refl]. }
  assert (H1 : upload_attempts p [Run argv] = 1%nat).
  { unfold upload_attempts. cbn [List.filter]. now rewrite Hup. }
  assert (H2 : forall d, upload_attempts p [Run argv; Move p d] = 1%nat).
  { intros d. unfold upload_attempts. cbn [List.filter]. now rewrite Hup. }
  destruct (decide (p ∈ files m)) as [Hin|Hout].
  - destruct (spawn E argv (calls m)) as [e|t] eqn:Hs.
    + exists (Raise e), (called (Run argv) m), [Run argv].
      rewrite (upload_body_spawn_error p m e Hin Hs).
      rewrite H1.
      repeat split; auto; try discriminate; try contradiction.
    + destruct (Z.eq_dec (returncode (curl argv t)) 0) as [Hrc|Hrc].
      * destruct (archive_destination_total (files m) (uploaded_folder (self m)) p)
          as [d Hd].
        rewrite (upload_body_success p d m t Hin Hs Hrc Hd). fold argv.
        destruct (move_error E p d (calls m ++ [Run argv])) as [e|].
        -- exists (Raise e), (after_failed_move E p d m), [Run argv; Move p d].
           rewrite H2. unfold after_failed_move. fold argv.
           destruct (move_copied E p d (calls m ++ [Run argv]));
             repeat split; simpl; rewrite <- ?app_assoc; auto;
             try discriminate; try contradiction.
        -- eexists (Ret tt), _, [Run argv; Move p d].
           rewrite H2.
           repeat split; simpl; rewrite <- ?app_assoc; auto;
             try discriminate; try contradiction.
      * rewrite (upload_body_failure p m t Hin Hs Hrc). fold argv.
        eexists (Ret tt), _, [Run argv].
        rewrite H1.
        repeat split; auto; try discriminate; try contradiction.
  - rewrite (upload_body_vanished p m Hout).
    eexists (Ret tt), _, [].
    unfold upload_attempts. simpl. rewrite app_nil_r.
    repeat split; auto; try discriminate; try contradiction.
Qed.

End UploadFacts.

(** * [upload_file] and [on_created] *)

Section HandlerFacts.
Variable E : env.

Lemma acquire_release_id (p : string) (S : gset string) :
  p ∉ S -> ({[p]} ∪ S) ∖ {[p]} = S.
Proof.
  intros Hp. apply set_eq. intros x.
  rewrite elem_of_difference, elem_of_union, elem_of_singleton.
  split; [intros [[->|Hx] Hne]; [contradiction|exact Hx]|].
  intros Hx. split; [now right|]. intros ->. contradiction.
Qed.

Lemma upload_file_after_return (p : string) (m m1 : machine) :
  upload_body E p m = (Ret tt, m1) ->
  self m1 = self m ->
  p ∈ processing_files (self m) ->
  upload_file E p m = (Ret tt, released p m1).
Proof.
  intros Hb Hs Hp. unfold upload_file, try_finally, try_except, processing_remove.
  rewrite Hb, Hs. now rewrite bool_decide_eq_true_2.
Qed.

Lemma upload_file_after_raise (p : string) (m m1 : machine) (e : exn) :
  upload_body E p m = (Raise e, m1) ->
  self m1 = self m ->
  p ∈ processing_files (self m) ->
  upload_file E p m =
  (Ret tt,
   released p (printed ("Error processing " +:+ p +:+ ": " +:+ exn_str e) m1)).
Proof.
  intros Hb Hs Hp. unfold upload_file, try_finally, try_except, processing_remove.
  rewrite Hb. unfold print. simpl. rewrite Hs. now rewrite bool_decide_eq_true_2.
Qed.

(** The [try ... except] part always returns. *)
Lemma guarded_body_returns (p : string) (m : machine) :
  exists m1 tr,
    try_except (upload_body E p)
      (fun e => print ("Error processing " +:+ p +:+ ": " +:+ exn_str e)) m
    = (Ret tt, m1) /\
    self m1 = self m /\ calls m1 = (calls m ++ tr)%list /\
    (upload_attempts p tr <= 1)%nat /\
    (p ∈ files m -> upload_attempts p tr = 1%nat) /\
    (p ∉ files m -> tr = []).
Proof.
  destruct (upload_body_total E p m)
    as (r & m' & tr & Hb & Hr & Hs & Hc & Hle & Hin & Hout).
  unfold try_except. rewrite Hb. destruct r as [[]|e|].
  - exists m', tr. tauto.
  - exists (printed ("Error processing " +:+ p +:+ ": " +:+ exn_str e) m'), tr.
    unfold print. simpl. tauto.
  - contradiction.
Qed.

(** [upload_file] as a whole: the guarded body, then the release. *)
Lemma upload_file_run (p : string) (m : machine) :
  exists m1 tr,
    self m1 = self m /\ calls m1 = (calls m ++ tr)%list /\
    (upload_attempts p tr <= 1)%nat /\
    (p ∈ files m -> upload_attempts p tr = 1%nat) /\
    (p ∉ files m -> tr = []) /\
    upload_file E p m =
    if bool_decide (p ∈ processing_files (self m))
    then (Ret tt, released p m1)
    else (Raise (KeyError p), m1).
Proof.
  destruct (guarded_body_returns p m) as (m1 & tr & Hg & Hs & Hc & Hle & Hin & Hout).
  exists m1, tr. repeat (split; [assumption|]).
  unfold upload_file, try_finally. rewrite Hg.
  unfold processing_remove. rewrite Hs.
  now destruct (bool_decide (p ∈ processing_files (self m))).
Qed.

Lemma upload_attempts_app (p : string) (a b : list call) :
  upload_attempts p (a ++ b) =
  (upload_attempts p a + upload_attempts p b)%nat.
Proof.
  unfold upload_attempts. now rewrite List.filter_app, length_app.
Qed.

Lemma on_created_ineligible (event : FileSystemEvent) (m : machine) :
  eligible event = false -> on_created E event m = (Ret tt, m).
Proof.
  unfold eligible, on_created.
  destruct (negb (is_directory event)); simpl; [|reflexivity].
  now intros ->.
Qed.

Lemma on_created_busy (event : FileSystemEvent) (m : machine) :
  event_key event ∈ processing_files (self m) ->
  on_created E event m = (Ret tt, m).
Proof.
  intros H. unfold on_created.
  destruct (negb (is_directory event)); [|reflexivity].
  destruct (is_image (mkPath (src_path event))); [|reflexivity].
  unfold bind, processing_contains. fold (event_key event).
  now rewrite bool_decide_eq_true_2.
Qed.

Lemma on_created_eligible (event : FileSystemEvent) (m : machine) :
  eligible event = true ->
  event_key event ∉ processing_files (self m) ->
  on_created E event m =
  upload_file E (event_key event) (slept E 30 (acquired (event_key event) m)).
Proof.
  intros He Hk. unfold eligible in He. apply andb_prop in He as [Hd Hi].
  unfold on_created. rewrite Hd, Hi.
  unfold bind, processing_contains. fold (event_key event).
  now rewrite bool_decide_eq_false_2.
Qed.

(** The whole pipeline of an eligible event whose path is not in flight
    runs inside the handler call. *)
Lemma on_created_pipeline (event : FileSystemEvent) (m : machine) :
  eligible event = true ->
  event_key event ∉ processing_files (self m) ->
  exists m' tr,
    on_created E event m = (Ret tt, m') /\
    calls m' = (calls m ++ Sleep 30 :: tr)%list /\
    processing_files (self m') = processing_files (self m) /\
    (upload_attempts (event_key event) tr <= 1)%nat /\
    (event_key event ∈ during_sleep E (calls m) (files m) ->
     upload_attempts (event_key event) tr = 1%nat).
Proof.
  intros He Hk. rewrite (on_created_eligible event m He Hk).
  set (p := event_key event) in *.
  destruct (upload_file_run p (slept E 30 (acquired p m)))
    as (m1 & tr & Hs & Hc & Hle & Hin & _ & Hu).
  rewrite bool_decide_eq_true_2 in Hu
    by (simpl; apply elem_of_union_l; now apply elem_of_singleton).
  exists (released p m1), tr. split; [exact Hu|].
  split; [|split; [|split]].
  - simpl. rewrite Hc. simpl. now rewrite <- app_assoc.
  - simpl. rewrite Hs. simpl. now apply acquire_release_id.
  - exact Hle.
  - exact Hin.
Qed.

(** In this model (a console that takes every line, a [curl] that ends)
    the handler returns, and between two handler calls the in-flight set is
    what it was: with one dispatcher thread it is empty whenever an event
    is taken from the queue. *)
Lemma on_created_returns (event : FileSystemEvent) (m : machine) :
  event_key event ∉ processing_files (self m) ->
  exists m',
    on_created E event m = (Ret tt, m') /\
    processing_files (self m') = processing_files (self m).
Proof.
  intros Hk. destruct (eligible event) eqn:He.
  - destruct (on_created_pipeline event m He Hk) as (m' & tr & Hr & _ & Hs & _).
    eauto.
  - rewrite (on_created_ineligible event m He). eauto.
Qed.

Lemma dispatch_keeps_in_flight_empty (events : list FileSystemEvent) (m : machine) :
  processing_files (self m) = ∅ ->
  exists m',
    dispatch_events E events m = (Ret tt, m') /\
    processing_files (self m') = ∅.
Proof.
  revert m. induction events as [|event rest IH]; intros m Hm.
  - exists m. split; [reflexivity | exact Hm].
  - destruct (on_created_returns event m) as (m1 & Hr & Hs).
    + rewrite Hm. apply not_elem_of_empty.
    + destruct (IH m1) as (m' & Hd & He); [now rewrite Hs|].
      exists m'. split; [|exact He].
      simpl. unfold bind. now rewrite Hr.
Qed.

End HandlerFacts.

(** * The claims on the upload routine *)

Section UploadClaims.
Variable E : env.

(** C1.  Whatever the world does (the upload works, [curl] fails or cannot
    be started, the file has vanished, the move raises), [upload_file]
    called for a path in the in-flight set returns normally with the path
    removed from the set and the rest of the set as it was; a later
    creation event for the same path is then processed again from the
    start (it sleeps and reaches [upload_file]) and ends released too. *)
Theorem upload_file_always_releases (p : string) (m : machine) :
  p ∈ processing_files (self m) ->
  exists m',
    upload_file E p m = (Ret tt, m') /\
    processing_files (self m') = processing_files (self m) ∖ {[p]} /\
    (p ∉ processing_files (self m')) /\
    forall event, eligible event = true -> event_key event = p ->
      exists m'' tr,
        on_created E event m' = (Ret tt, m'') /\
        calls m'' = (calls m' ++ Sleep 30 :: tr)%list /\
        (p ∉ processing_files (self m'')).
Proof.
  intros Hp.
  destruct (upload_file_run E p m) as (m1 & tr & Hs & _ & _ & _ & _ & Hu).
  rewrite bool_decide_eq_true_2 in Hu by exact Hp.
  exists (released p m1). split; [exact Hu|].
  assert (Hset : processing_files (self (released p m1)) =
                 processing_files (self m) ∖ {[p]}).
  { simpl. now rewrite Hs. }
  assert (Hgone : p ∉ processing_files (self (released p m1))).
  { rewrite Hset. apply not_elem_of_difference. right. now apply elem_of_singleton. }
  split; [exact Hset|]. split; [exact Hgone|].
  intros event He Hk. subst p.
  destruct (on_created_pipeline E event (released (event_key event) m1) He Hgone)
    as (m'' & tr' & Hrun & Hc & Hsame & _).
  exists m'', tr'. split; [exact Hrun|]. split; [exact Hc|].
  now rewrite Hsame.
Qed.

(** C5.  When [curl] ends with a non-zero exit status, the file stays where
    it is: the files are unchanged, the only call made is the one [curl]
    run (no move, no second run), and the two lines printed are the path
    and [curl]'s error text. *)
Theorem upload_failure_leaves_file (p : string) (m : machine) (t : transport) :
  let argv := curl_command p (upload_url (self m)) in
  let m' := released p
              (printed ("Error: " +:+ stderr (curl argv t))
                 (printed ("Failed to upload: " +:+ p) (called (Run argv) m))) in
  p ∈ files m ->
  p ∈ processing_files (self m) ->
  spawn E argv (calls m) = inr t ->
  returncode (curl argv t) <> 0 ->
  upload_file E p m = (Ret tt, m') /\
  files m' = files m /\ p ∈ files m' /\
  calls m' = (calls m ++ [Run argv])%list /\
  console m' =
    (console m ++ ["Failed to upload: " +:+ p;
                   "Error: " +:+ stderr (curl argv t)])%list /\
  (p ∉ processing_files (self m')).
Proof.
  intros argv m' Hin Hp Hs Hrc.
  split.
  - apply upload_file_after_return; [|reflexivity|exact Hp].
    now apply upload_body_failure.
  - unfold m'. simpl. rewrite <- app_assoc. simpl.
    repeat split; auto.
    apply not_elem_of_difference. right. now apply elem_of_singleton.
Qed.

(** C6.  When the file is gone at the start of [upload_file], no call is
    made at all (no [curl] run, no move): one line reporting the absence is
    printed, the files are untouched, and the path is released. *)
Theorem vanished_file_skips_upload (p : string) (m : machine) :
  let m' := released p (printed ("File no longer exists: " +:+ p) m) in
  p ∉ files m ->
  p ∈ processing_files (self m) ->
  upload_file E p m = (Ret tt, m') /\
  calls m' = calls m /\
  upload_attempts p (calls m') = upload_attempts p (calls m) /\
  files m' = files m /\
  console m' = (console m ++ ["File no longer exists: " +:+ p])%list /\
  processing_files (self m') = processing_files (self m) ∖ {[p]} /\
  (p ∉ processing_files (self m')).
Proof.
  intros m' Hout Hp. split.
  - apply upload_file_after_return; [|reflexivity|exact Hp].
    now apply upload_body_vanished.
  - unfold m'. simpl. repeat split; auto.
    apply not_elem_of_difference. right. now apply elem_of_singleton.
Qed.

(** The same at the level of the event: a file deleted while the handler
    sleeps costs the sleep and nothing else. *)
Corollary deleted_during_debounce (event : FileSystemEvent) (m : machine) :
  eligible event = true ->
  event_key event ∉ processing_files (self m) ->
  event_key event ∉ during_sleep E (calls m) (files m) ->
  exists m',
    on_created E event m = (Ret tt, m') /\
    calls m' = (calls m ++ [Sleep 30])%list /\
    processing_files (self m') = processing_files (self m).
Proof.
  intros He Hk Hgone. rewrite (on_created_eligible E event m He Hk).
  set (p := event_key event) in *.
  exists (released p (printed ("File no longer exists: " +:+ p)
                        (slept E 30 (acquired p m)))).
  split.
  - apply upload_file_after_return; [|reflexivity|].
    + now apply upload_body_vanished.
    + simpl. apply elem_of_union_l. now apply elem_of_singleton.
  - simpl. split; [reflexivity|]. now apply acquire_release_id.
Qed.

(** C8 (as the code has it).  The release is [set.remove]: for a path in
    the set it removes the path and returns; for a path that is not in the
    set it raises [KeyError] and leaves the set as it was, and so does
    [upload_file] as a whole, from its [finally] block. *)
Theorem release_needs_acquire (p : string) (m : machine) :
  (p ∈ processing_files (self m) ->
   processing_remove p m = (Ret tt, released p m)) /\
  (p ∉ processing_files (self m) ->
   processing_remove p m = (Raise (KeyError p), m) /\
   exists m', upload_file E p m = (Raise (KeyError p), m') /\
              processing_files (self m') = processing_files (self m)).
Proof.
  split.
  - intros Hp. unfold processing_remove. now rewrite bool_decide_eq_true_2.
  - intros Hp. split.
    + unfold processing_remove. now rewrite bool_decide_eq_false_2.
    + destruct (upload_file_run E p m) as (m1 & tr & Hs & _ & _ & _ & _ & Hu).
      rewrite bool_decide_eq_false_2 in Hu by exact Hp.
      exists m1. split; [exact Hu|]. now rewrite Hs.
Qed.

End UploadClaims.

(** * The claims on events *)

Section EventClaims.
Variable E : env.

(** C4.  The code does not do what the claim says.  A second creation
    event for a path, queued while the first is being handled, is not
    discarded: the first call has released the path before the second
    event is taken, so the handler sleeps 30 seconds again and, when the
    file is still there, runs [curl] for it a second time. *)
Theorem queued_duplicate_is_handled_again (event : FileSystemEvent)
    (m : machine) :
  eligible event = true ->
  event_key event ∉ processing_files (self m) ->
  exists m1 m2 tr1 tr2,
    on_created E event m = (Ret tt, m1) /\
    calls m1 = (calls m ++ Sleep 30 :: tr1)%list /\
    dispatch_events E [event; event] m = (Ret tt, m2) /\
    calls m2 = (calls m1 ++ Sleep 30 :: tr2)%list /\
    (event_key event ∈ during_sleep E (calls m) (files m) ->
     upload_attempts (event_key event) tr1 = 1%nat) /\
    (event_key event ∈ during_sleep E (calls m1) (files m1) ->
     upload_attempts (event_key event) tr2 = 1%nat).
Proof.
  intros He Hk.
  destruct (on_created_pipeline E event m He Hk)
    as (m1 & tr1 & Hr1 & Hc1 & Hs1 & _ & Hu1).
  assert (Hk1 : event_key event ∉ processing_files (self m1))
    by now rewrite Hs1.
  destruct (on_created_pipeline E event m1 He Hk1)
    as (m2 & tr2 & Hr2 & Hc2 & _ & _ & Hu2).
  exists m1, m2, tr1, tr2.
  split; [exact Hr1|]. split; [exact Hc1|]. split; [|auto].
  simpl. unfold bind. rewrite Hr1, Hr2. reflexivity.
Qed.

(** C7.  The code does not do what the claim says.  The HTTP status is
    never looked at: whatever status the server answers with (404 and 500
    included), [curl], run without [--fail], ends with exit status 0, and
    [upload_file] goes on to move the file to the archive destination; when
    the move works the file is gone from the watch folder and the success
    line is printed. *)
Theorem http_status_is_not_checked (p : string) (m : machine) (s : Z)
    (d : string) :
  let argv := curl_command p (upload_url (self m)) in
  p ∈ files m ->
  p ∈ processing_files (self m) ->
  spawn E argv (calls m) = inr (HttpResponse s d) ->
  has_fail_flag argv = false ->
  returncode (curl argv (HttpResponse s d)) = 0 /\
  exists dest m',
    archive_destination (probe_fuel (files m)) (files m)
      (uploaded_folder (self m)) p = Some dest /\
    upload_file E p m = (Ret tt, m') /\
    calls m' = (calls m ++ [Run argv; Move p dest])%list /\
    (move_error E p dest (calls m ++ [Run argv]) = None ->
     files m' = {[dest]} ∪ (files m ∖ {[p]}) /\
     console m' =
       (console m ++ ["Successfully uploaded and moved: " +:+ basename p])%list).
Proof.
  intros argv Hin Hp Hs Hflag.
  assert (Hrc : returncode (curl argv (HttpResponse s d)) = 0).
  { simpl. now rewrite Hflag. }
  split; [exact Hrc|].
  destruct (archive_destination_total (files m) (uploaded_folder (self m)) p)
    as [dest Hd].
  pose proof (upload_body_success E p dest m (HttpResponse s d) Hin Hs Hrc Hd)
    as Hb. fold argv in Hb.
  destruct (after_failed_move_frame E p dest m) as (Hfs & _ & Hfc & _).
  fold argv in Hfc.
  exists dest.
  destruct (move_error E p dest (calls m ++ [Run argv])) as [e|].
  - eexists. split; [exact Hd|]. split.
    + apply (upload_file_after_raise E p m _ e Hb); [exact Hfs|exact Hp].
    + split; [|discriminate]. simpl. exact Hfc.
  - eexists. split; [exact Hd|]. split.
    + apply (upload_file_after_return E p m _ Hb); [reflexivity|exact Hp].
    + simpl. rewrite <- app_assoc. auto.
Qed.

(** C9 (as the code has it).  The debounce is a sleep inside the handler
    call: for an eligible event whose path is not in flight, [on_created]
    returns only after the 30 seconds and the whole of [upload_file], and
    the events queued behind it are handled from the machine it leaves. *)
Theorem debounce_runs_in_handler (event : FileSystemEvent)
    (rest : list FileSystemEvent) (m : machine) :
  eligible event = true ->
  event_key event ∉ processing_files (self m) ->
  exists m' tr,
    on_created E event m = (Ret tt, m') /\
    calls m' = (calls m ++ Sleep 30 :: tr)%list /\
    (event_key event ∈ during_sleep E (calls m) (files m) ->
     upload_attempts (event_key event) tr = 1%nat) /\
    dispatch_events E (event :: rest) m = dispatch_events E rest m'.
Proof.
  intros He Hk.
  destruct (on_created_pipeline E event m He Hk)
    as (m' & tr & Hrun & Hc & _ & _ & Hup).
  exists m', tr. split; [exact Hrun|]. split; [exact Hc|]. split; [exact Hup|].
  simpl. unfold bind. now rewrite Hrun.
Qed.

End EventClaims.

(** * The file name filter *)

Section FilterFacts.

Local Arguments String.append !_ _ / : simpl nomatch.

Lemma lower_ascii_dot (a : ascii) :
  Ascii.eqb (lower_ascii a) dot = Ascii.eqb a dot.
Proof. destruct a as [[] [] [] [] [] [] [] []]; reflexivity. Qed.

Lemma mem_dot_lower (s : string) : mem dot (lower s) = mem dot s.
Proof.
  induction s as [|a t IH]; simpl; [reflexivity|].
  now rewrite lower_ascii_dot, IH.
Qed.

Lemma lower_cons_inv (s t : string) (a : ascii) :
  lower s = String a t ->
  exists c e, s = String c e /\ lower_ascii c = a /\ lower e = t.
Proof.
  destruct s as [|c e]; simpl; [discriminate|].
  intros H. injection H as Ha Ht. eauto.
Qed.

Lemma lower_nil_inv (s : string) : lower s = "" -> s = "".
Proof. destruct s; simpl; [reflexivity | discriminate]. Qed.

Lemma in_list_In (s : string) (l : list string) :
  in_list s l = true <-> In s l.
Proof.
  unfold in_list. rewrite existsb_exists. split.
  - intros (x & Hx & He). apply String.eqb_eq in He. now subst.
  - intros H. exists s. split; [exact H | apply String.eqb_refl].
Qed.

Lemma take_length (n : nat) (s : string) :
  (n <= String.length s)%nat -> String.length (take n s) = n.
Proof.
  revert s. induction n as [|n IH]; intros [|a t]; simpl; try lia.
  intros H. rewrite IH; lia.
Qed.

(** The index [rfind] returns is where the last occurrence sits. *)
Lemma rfind_drop (c : ascii) (s : string) :
  0 <= rfind c s ->
  exists t, drop (Z.to_nat (rfind c s)) s = String c t /\ mem c t = false.
Proof.
  induction s as [|a t IH]; simpl; [lia|].
  pose proof (rfind_bounds c t) as Hb.
  destruct (0 <=? rfind c t) eqn:Hr.
  - apply Z.leb_le in Hr. intros _.
    replace (Z.to_nat (rfind c t + 1)) with (S (Z.to_nat (rfind c t))) by lia.
    simpl. now apply IH.
  - apply Z.leb_gt in Hr. assert (Ht : rfind c t = -1) by lia.
    destruct (Ascii.eqb a c) eqn:Ha; [|lia].
    intros _. simpl. apply Ascii.eqb_eq in Ha. subst a.
    exists t. split; [reflexivity|]. now apply rfind_absent.
Qed.

(** A name that is a dot and then no further dot has no suffix. *)
Lemma suffix_leading_dot (p : Path) (e : string) :
  name p = String dot e -> mem dot e = false -> suffix p = "".
Proof.
  intros Hn He. unfold suffix. rewrite Hn. simpl.
  apply rfind_absent in He. rewrite He. reflexivity.
Qed.

(** A name [stem.e] with a stem and no dot in [e] has suffix [.e]. *)
Lemma suffix_stem_ext (p : Path) (stem e : string) :
  name p = stem +:+ String dot e ->
  stem <> "" -> e <> "" -> mem dot e = false ->
  suffix p = String dot e.
Proof.
  intros Hn Hstem He Hdot. unfold suffix. rewrite Hn.
  assert (Hr : rfind dot (stem +:+ String dot e) = len stem).
  { rewrite rfind_app. simpl. apply rfind_absent in Hdot. rewrite Hdot.
    simpl. lia. }
  rewrite Hr, len_app.
  assert (0 < len stem).
  { unfold len. destruct stem; [contradiction | simpl; lia]. }
  assert (1 < len (String dot e)).
  { unfold len. destruct e; [contradiction | simpl; lia]. }
  replace (0 <? len stem) with true by (symmetry; apply Z.ltb_lt; lia).
  replace (len stem <? len stem + len (String dot e) - 1) with true
    by (symmetry; apply Z.ltb_lt; lia).
  simpl. unfold slice_from.
  replace (Z.to_nat (len stem)) with (String.length stem + 0)%nat
    by (unfold len; lia).
  rewrite drop_app. reflexivity.
Qed.

(** Conversely a suffix comes from such a name. *)
Lemma suffix_inv (p : Path) :
  suffix p <> "" ->
  exists stem e,
    name p = stem +:+ String dot e /\ stem <> "" /\ e <> "" /\
    mem dot e = false /\ suffix p = String dot e.
Proof.
  unfold suffix. set (n := name p). set (i := rfind dot n).
  destruct ((0 <? i) && (i <? len n - 1)) eqn:Hc; [|contradiction].
  intros _. apply andb_prop in Hc as [H0 H1].
  apply Z.ltb_lt in H0. apply Z.ltb_lt in H1.
  destruct (rfind_drop dot n) as (e & Hd & He); [fold i; lia|]. fold i in Hd.
  unfold slice_from.
  assert (Hlen : String.length (take (Z.to_nat i) n) = Z.to_nat i).
  { apply take_length. unfold len in H1. lia. }
  pose proof (take_drop (Z.to_nat i) n) as Hsplit. rewrite Hd in Hsplit.
  exists (take (Z.to_nat i) n), e. split; [now symmetry|]. split; [|split].
  - intros Hs. rewrite Hs in Hlen. simpl in Hlen. lia.
  - intros ->. apply (f_equal String.length) in Hsplit.
    rewrite str_length_app, Hlen in Hsplit. simpl in Hsplit.
    unfold len in H1. lia.
  - split; [exact He | exact Hd].
Qed.

Lemma bare_extension_shape (e : string) :
  In (lower e) ["jpg"; "jpeg"; "png"] -> e <> "" /\ mem dot e = false.
Proof.
  intros H. split.
  - intros ->. simpl in H. intuition discriminate.
  - rewrite <- mem_dot_lower.
    destruct H as [<-|[<-|[<-|[]]]]; reflexivity.
Qed.

Lemma dotted_extension (e : string) :
  In (lower (String dot e)) image_suffixes <-> In (lower e) ["jpg"; "jpeg"; "png"].
Proof.
  unfold image_suffixes. simpl. split.
  - intros [H|[H|[H|[]]]]; injection H as H; rewrite <- H; tauto.
  - intros [H|[H|[H|[]]]]; rewrite <- H; tauto.
Qed.

(** A name that reads as an allowed extension is a dot and letters. *)
Lemma extension_only_name (n : string) :
  In (lower n) image_suffixes ->
  exists e, n = String dot e /\ mem dot e = false.
Proof.
  intros H.
  assert (Hcons : exists t, lower n = String dot t /\ mem dot t = false).
  { destruct H as [<-|[<-|[<-|[]]]]; eexists; split; reflexivity. }
  destruct Hcons as (t & Ht & Hdot).
  apply lower_cons_inv in Ht as (c & e & -> & Hc & <-).
  assert (c = dot) as ->.
  { apply Ascii.eqb_eq. rewrite <- lower_ascii_dot, Hc. reflexivity. }
  exists e. split; [reflexivity|]. now rewrite <- mem_dot_lower.
Qed.

(** C2.  The filter accepts a path exactly when its extension
    ([Path.suffix]), lower-cased, is [.jpg], [.jpeg] or [.png]; that is,
    exactly when the name is a non-empty stem, a dot, and [jpg], [jpeg] or
    [png] in any mix of cases.  The answer depends on the lower-cased
    extension only. *)
Theorem is_image_iff_extension (p : Path) :
  (is_image p = true <-> In (lower (suffix p)) image_suffixes) /\
  (is_image p = false <-> ~ In (lower (suffix p)) image_suffixes) /\
  (is_image p = true <->
   exists stem e, name p = stem +:+ "." +:+ e /\ stem <> "" /\
                  In (lower e) ["jpg"; "jpeg"; "png"]) /\
  (forall q, lower (suffix q) = lower (suffix p) -> is_image q = is_image p).
Proof.
  assert (Hiff : is_image p = true <-> In (lower (suffix p)) image_suffixes)
    by apply in_list_In.
  split; [exact Hiff|]. split; [|split].
  - rewrite <- Hiff. destruct (is_image p); split; intros H; try discriminate;
      try reflexivity; try (intros H'; discriminate). now contradiction H.
  - rewrite Hiff. split.
    + intros H.
      destruct (suffix_inv p) as (stem & e & Hn & Hstem & _ & _ & Hsuf).
      { intros Hs. rewrite Hs in H. simpl in H. intuition discriminate. }
      exists stem, e. split; [exact Hn|]. split; [exact Hstem|].
      rewrite Hsuf in H. now apply dotted_extension.
    + intros (stem & e & Hn & Hstem & He).
      destruct (bare_extension_shape e He) as [Hne Hdot].
      rewrite (suffix_stem_ext p stem e Hn Hstem Hne Hdot).
      now apply dotted_extension.
  - intros q Hq. unfold is_image. now rewrite Hq.
Qed.

End FilterFacts.

Section FilterClaims.
Variable E : env.

(** C10.  A created file whose whole name is a dot followed by [jpg],
    [jpeg] or [png] (in any mix of cases) has an empty [Path.suffix]: the
    filter rejects it and the handler does nothing, so the path never
    enters the in-flight set and nothing is uploaded. *)
Theorem dot_only_name_not_processed (event : FileSystemEvent) (m : machine) :
  In (lower (name (mkPath (src_path event)))) image_suffixes ->
  suffix (mkPath (src_path event)) = "" /\
  is_image (mkPath (src_path event)) = false /\
  on_created E event m = (Ret tt, m).
Proof.
  intros H. apply extension_only_name in H as (e & Hn & Hdot).
  pose proof (suffix_leading_dot _ e Hn Hdot) as Hs.
  assert (Hi : is_image (mkPath (src_path event)) = false).
  { unfold is_image. rewrite Hs. reflexivity. }
  split; [exact Hs|]. split; [exact Hi|].
  apply on_created_ineligible. unfold eligible. rewrite Hi.
  apply andb_false_r.
Qed.

End FilterClaims.

(** * Sample runs *)

(** A move that raises is reported by the [except] clause; the file stays
    in the watch folder and the path is released. *)
Example move_failure_is_logged :
  upload_file read_only_archive photo (in_flight photo [photo]) =
  (Ret tt,
   released photo
     (printed "Error processing /cam/photo.jpg: [Errno 13] Permission denied"
        (called (Move photo "/cam/uploaded/photo.jpg")
           (called (Run (curl_command photo (upload_url cam)))
              (in_flight photo [photo]))))).
Proof. vm_compute. reflexivity. Qed.

(** With one dispatcher thread a second event for the same path, queued
    while the first is handled, finds the path released: after a failed
    upload the file is posted a second time. *)
Example queued_duplicate_runs_again :
  upload_attempts photo
    (calls (snd (dispatch_events refused [created photo; created photo]
                   (machine_of cam [photo])))) = 2%nat.
Proof. vm_compute. reflexivity. Qed.

(** * The claims at concrete inputs *)

Ltac by_compute := refine (bool_decide_unpack _ _); vm_compute; exact I.

Lemma upload_file_always_releases_witness :
  photo ∈ processing_files (self (in_flight photo [photo])) /\
  exists m', upload_file served photo (in_flight photo [photo]) = (Ret tt, m') /\
             (photo ∉ processing_files (self m')).
Proof.
  assert (H : photo ∈ processing_files (self (in_flight photo [photo])))
    by by_compute.
  split; [exact H|].
  destruct (upload_file_always_releases served photo _ H) as (m' & Hr & _ & Hg & _).
  exists m'. split; [exact Hr | exact Hg].
Defined.

Lemma is_image_iff_extension_witness :
  is_image (mkPath "/cam/Photo.JPeG") = true /\
  is_image (mkPath "/cam/notes.txt") = false.
Proof.
  split.
  - apply (proj1 (is_image_iff_extension (mkPath "/cam/Photo.JPeG"))).
    vm_compute. tauto.
  - apply (proj1 (proj2 (is_image_iff_extension (mkPath "/cam/notes.txt")))).
    vm_compute. intuition discriminate.
Defined.

Lemma archive_destination_first_free_witness :
  (size crowded_archive < 3)%nat /\
  archive_destination 3 crowded_archive "/cam/uploaded" photo =
  Some "/cam/uploaded/photo_2.jpg".
Proof.
  assert (H : (size crowded_archive < 3)%nat) by (vm_compute; lia).
  split; [exact H|].
  destruct (archive_destination_first_free 3 crowded_archive "/cam/uploaded"
              photo H) as (_ & _ & _ & _ & H2).
  rewrite H2; [vm_compute; reflexivity | by_compute | by_compute | by_compute].
Defined.

Lemma queued_duplicate_is_handled_again_witness :
  eligible (created photo) = true /\
  exists m2,
    dispatch_events refused [created photo; created photo]
      (machine_of cam [photo]) = (Ret tt, m2) /\
    upload_attempts photo (calls m2) = 2%nat.
Proof.
  assert (He : eligible (created photo) = true) by (vm_compute; reflexivity).
  split; [exact He|].
  destruct (queued_duplicate_is_handled_again refused (created photo)
              (machine_of cam [photo]) He)
    as (m1 & m2 & tr1 & tr2 & H1 & Hc1 & Hd & Hc2 & Hu1 & Hu2).
  - by_compute.
  - exists m2. split; [exact Hd|].
    rewrite Hc2, Hc1, !upload_attempts_app.
    change (upload_attempts photo (Sleep 30 :: tr1))
      with (upload_attempts photo tr1).
    change (upload_attempts photo (Sleep 30 :: tr2))
      with (upload_attempts photo tr2).
    change (event_key (created photo)) with photo in Hu1, Hu2.
    rewrite Hu1, Hu2; [reflexivity| |by_compute].
    vm_compute in H1. injection H1 as <-. by_compute.
Defined.

Lemma upload_failure_leaves_file_witness :
  exists m',
    upload_file refused photo (in_flight photo [photo]) = (Ret tt, m') /\
    photo ∈ files m' /\
    console m' = ["Failed to upload: /cam/photo.jpg";
                  "Error: curl: (7) Failed to connect"].
Proof.
  destruct (upload_failure_leaves_file refused photo (in_flight photo [photo])
              (TransportError 7 "curl: (7) Failed to connect"))
    as (Hr & _ & Hin & _ & Hc & _).
  - by_compute.
  - by_compute.
  - reflexivity.
  - vm_compute. discriminate.
  - eexists. split; [exact Hr|]. split; [exact Hin | exact Hc].
Defined.

Lemma vanished_file_skips_upload_witness :
  exists m',
    upload_file served photo (in_flight photo []) = (Ret tt, m') /\
    calls m' = [] /\
    console m' = ["File no longer exists: /cam/photo.jpg"] /\
    (photo ∉ processing_files (self m')).
Proof.
  destruct (vanished_file_skips_upload served photo (in_flight photo []))
    as (Hr & Hc & _ & _ & Hl & _ & Hg).
  - by_compute.
  - by_compute.
  - eexists. split; [exact Hr|]. split; [exact Hc|]. split; [exact Hl | exact Hg].
Defined.

Lemma http_status_is_not_checked_witness :
  spawn server_error (curl_command photo (upload_url cam)) [] =
    inr (HttpResponse 500 "") /\
  exists m',
    upload_file server_error photo (in_flight photo [photo]) = (Ret tt, m') /\
    calls m' = [Run (curl_command photo (upload_url cam));
                Move photo "/cam/uploaded/photo.jpg"] /\
    console m' = ["Successfully uploaded and moved: photo.jpg"].
Proof.
  split; [reflexivity|].
  destruct (http_status_is_not_checked server_error photo
              (in_flight photo [photo]) 500 "")
    as (_ & dest & m' & Hd & Hr & Hc & Hok).
  - by_compute.
  - by_compute.
  - reflexivity.
  - vm_compute. reflexivity.
  - assert (Some dest = Some "/cam/uploaded/photo.jpg") as Heq
      by (rewrite <- Hd; vm_compute; reflexivity).
    injection Heq as ->.
    exists m'. split; [exact Hr|]. split; [exact Hc|].
    exact (proj2 (Hok eq_refl)).
Defined.

(** The same run evaluated: the server answers 500, [curl] ends with exit
    status 0, and the file is moved to the archive with the success line
    printed. *)
Lemma http_error_is_archived :
  http_success (HttpResponse 500 "") = false /\
  spawn server_error (curl_command photo (upload_url cam)) [] =
    inr (HttpResponse 500 "") /\
  fst (upload_file server_error photo (in_flight photo [photo])) = Ret tt /\
  calls (snd (upload_file server_error photo (in_flight photo [photo]))) =
    [Run (curl_command photo (upload_url cam));
     Move photo "/cam/uploaded/photo.jpg"] /\
  elements (files (snd (upload_file server_error photo (in_flight photo [photo]))))
    = ["/cam/uploaded/photo.jpg"] /\
  console (snd (upload_file server_error photo (in_flight photo [photo]))) =
    ["Successfully uploaded and moved: photo.jpg"].
Proof. vm_compute. repeat split. Qed.

Lemma release_needs_acquire_witness :
  (photo ∉ processing_files (self (machine_of cam [photo]))) /\
  exists m',
    upload_file refused photo (machine_of cam [photo]) =
    (Raise (KeyError photo), m') /\
    processing_files (self m') = processing_files (self (machine_of cam [photo])).
Proof.
  assert (H : photo ∉ processing_files (self (machine_of cam [photo])))
    by by_compute.
  split; [exact H|].
  exact (proj2 (proj2 (release_needs_acquire refused photo _) H)).
Defined.

(** C8, the claim as written, fails: a release with no acquire before it
    raises. *)
Lemma release_without_acquire_raises :
  fst (processing_remove photo (machine_of cam [photo])) = Raise (KeyError photo) /\
  fst (upload_file refused photo (machine_of cam [photo])) = Raise (KeyError photo).
Proof. vm_compute. split; reflexivity. Qed.

Lemma debounce_runs_in_handler_witness :
  exists m' tr,
    on_created served (created first_file) two_files = (Ret tt, m') /\
    calls m' = Sleep 30 :: tr /\
    dispatch_events served [created first_file; created second_file] two_files =
    dispatch_events served [created second_file] m'.
Proof.
  destruct (debounce_runs_in_handler served (created first_file)
              [created second_file] two_files)
    as (m' & tr & Hr & Hc & _ & Hd).
  - vm_compute. reflexivity.
  - by_compute.
  - exists m', tr. split; [exact Hr|]. split; [exact Hc | exact Hd].
Defined.

(** C9, the claim as written, fails: with the first file's event ahead of
    it in the queue, the second file's upload starts after 60 seconds of
    sleep; alone it starts after 30. *)
Lemma second_file_waits_for_first :
  slept_before_upload second_file
    (calls (snd (dispatch_events served
                   [created first_file; created second_file] two_files)))
  = Some 60 /\
  slept_before_upload second_file
    (calls (snd (dispatch_events served [created second_file] two_files)))
  = Some 30.
Proof. vm_compute. split; reflexivity. Qed.

Lemma dot_only_name_not_processed_witness :
  In (lower (name (mkPath (src_path (created "/cam/.JPG"))))) image_suffixes /\
  on_created served (created "/cam/.JPG") (machine_of cam ["/cam/.JPG"]) =
  (Ret tt, machine_of cam ["/cam/.JPG"]).
Proof.
  assert (H : In (lower (name (mkPath (src_path (created "/cam/.JPG")))))
                image_suffixes) by (vm_compute; tauto).
  split; [exact H|].
  exact (proj2 (proj2 (dot_only_name_not_processed served _ _ H))).
Defined.

(** * Further properties of [upload_file] *)

Section UploadCases.
Variable E : env.

Local Arguments after_failed_move : simpl never.

(** A destination the loop settles on never exists yet. *)
Lemma archive_destination_not_taken (fs : gset string) (folder p d : string) :
  archive_destination (probe_fuel fs) fs folder p = Some d -> d ∉ fs.
Proof.
  intros Hd. destruct (decide (join2 folder (basename p) ∈ fs)) as [Hin|Hout].
  - destruct (archive_destination_numbered (probe_fuel fs) fs folder p)
      as (k & _ & Hk & Hfree & _); [unfold probe_fuel; lia|exact Hin|].
    rewrite Hk in Hd. injection Hd as <-. exact Hfree.
  - rewrite archive_destination_free in Hd by exact Hout.
    injection Hd as <-. exact Hout.
Qed.

(** Every run of [upload_file] goes one of the five ways, and then the
    [finally] block releases the path (or raises, for a path that was not
    acquired). *)
Lemma upload_file_cases (p : string) (m : machine) :
  exists m1,
    attempt_ends E p m m1 /\
    upload_file E p m =
    if bool_decide (p ∈ processing_files (self m))
    then (Ret tt, released p m1)
    else (Raise (KeyError p), m1).
Proof.
  set (argv := curl_command p (upload_url (self m))).
  assert (Hfin : forall m1, self m1 = self m ->
    try_except (upload_body E p)
      (fun e => print ("Error processing " +:+ p +:+ ": " +:+ exn_str e)) m
    = (Ret tt, m1) ->
    upload_file E p m =
    if bool_decide (p ∈ processing_files (self m))
    then (Ret tt, released p m1)
    else (Raise (KeyError p), m1)).
  { intros m1 Hs Hg. unfold upload_file, try_finally. rewrite Hg.
    unfold processing_remove. rewrite Hs.
    now destruct (bool_decide (p ∈ processing_files (self m))). }
  destruct (decide (p ∈ files m)) as [Hin|Hout].
  - destruct (spawn E argv (calls m)) as [e|t] eqn:Hs.
    + eexists. split; [apply (NotStarted E p m e Hin Hs)|].
      apply Hfin; [reflexivity|].
      unfold try_except. now rewrite (upload_body_spawn_error E p m e Hin Hs).
    + destruct (Z.eq_dec (returncode (curl argv t)) 0) as [Hrc|Hrc].
      * destruct (archive_destination_total (files m) (uploaded_folder (self m)) p)
          as [d Hd].
        pose proof (upload_body_success E p d m t Hin Hs Hrc Hd) as Hb.
        fold argv in Hb.
        destruct (move_error E p d (calls m ++ [Run argv])) as [e|] eqn:Hm.
        -- eexists. split; [apply (MoveRaised E p m t d e Hin Hs Hrc Hd Hm)|].
           apply Hfin; [apply (after_failed_move_frame E p d m)|].
           unfold try_except. now rewrite Hb.
        -- eexists. split; [apply (Archived E p m t d Hin Hs Hrc Hd Hm)|].
           apply Hfin; [reflexivity|].
           unfold try_except. now rewrite Hb.
      * eexists. split; [apply (Failed E p m t Hin Hs Hrc)|].
        apply Hfin; [reflexivity|].
        unfold try_except. now rewrite (upload_body_failure E p m t Hin Hs Hrc).
  - eexists. split; [apply (Vanished E p m Hout)|].
    apply Hfin; [reflexivity|].
    unfold try_except. now rewrite (upload_body_vanished E p m Hout).
Qed.

(** What any of the five ways leaves behind. *)
Lemma attempt_ends_frame (p : string) (m m1 : machine) :
  attempt_ends E p m m1 ->
  self m1 = self m /\
  (exists tr, calls m1 = (calls m ++ tr)%list /\ total_sleep tr = 0 /\
     (tr = [] \/
      tr = [Run (curl_command p (upload_url (self m)))] \/
      exists t d,
        tr = [Run (curl_command p (upload_url (self m))); Move p d] /\
        spawn E (curl_command p (upload_url (self m))) (calls m) = inr t /\
        returncode (curl (curl_command p (upload_url (self m))) t) = 0 /\
        archive_destination (probe_fuel (files m)) (files m)
          (uploaded_folder (self m)) p = Some d)) /\
  (exists lines, console m1 = (console m ++ lines)%list) /\
  (files m1 = files m \/
   exists d, p ∈ files m /\ (d ∉ files m) /\
             (files m1 = {[d]} ∪ (files m ∖ {[p]}) \/
              files m1 = {[d]} ∪ files m)).
Proof.
  intros H. destruct H as [Hout|e Hin Hs|t Hin Hs Hrc|t d e Hin Hs Hrc Hd Hm
                           |t d Hin Hs Hrc Hd Hm].
  - simpl. split; [reflexivity|]. split; [|split].
    + exists []. rewrite app_nil_r. auto.
    + eexists. reflexivity.
    + now left.
  - simpl. split; [reflexivity|]. split; [|split].
    + eexists. split; [reflexivity|]. auto.
    + eexists. reflexivity.
    + now left.
  - simpl. split; [reflexivity|]. split; [|split].
    + eexists. split; [reflexivity|]. auto.
    + exists ["Failed to upload: " +:+ p;
              "Error: " +:+ stderr (curl (curl_command p (upload_url (self m))) t)].
      now rewrite <- app_assoc.
    + now left.
  - destruct (after_failed_move_frame E p d m) as (Hfs & Hfl & Hfc & Hff).
    split; [exact Hfs|]. split; [|split].
    + exists [Run (curl_command p (upload_url (self m))); Move p d].
      split; [exact Hfc|]. split; [reflexivity|].
      right. right. exists t, d. auto.
    + exists ["Error processing " +:+ p +:+ ": " +:+ exn_str e].
      cbn [console printed]. now rewrite Hfl.
    + cbn [files printed]. rewrite Hff.
      destruct (move_copied E p d
                  (calls m ++ [Run (curl_command p (upload_url (self m)))]));
        [|now left].
      right. exists d. split; [exact Hin|]. split; [|now right].
      now apply archive_destination_not_taken in Hd.
  - simpl. split; [reflexivity|]. split; [|split].
    + exists [Run (curl_command p (upload_url (self m))); Move p d].
      rewrite <- app_assoc. split; [reflexivity|]. split; [reflexivity|].
      right. right. exists t, d. auto.
    + eexists. reflexivity.
    + right. exists d. split; [exact Hin|]. split; [|now left].
      now apply archive_destination_not_taken in Hd.
Qed.

(** The lines one run prints: two exactly when [curl] ran and ended with a
    non-zero exit status, one otherwise. *)
Lemma attempt_ends_lines (p : string) (m m1 : machine) :
  attempt_ends E p m m1 ->
  exists lines,
    console m1 = (console m ++ lines)%list /\
    ((exists t,
        p ∈ files m /\
        spawn E (curl_command p (upload_url (self m))) (calls m) = inr t /\
        returncode (curl (curl_command p (upload_url (self m))) t) <> 0 /\
        lines = ["Failed to upload: " +:+ p;
                 "Error: " +:+
                 stderr (curl (curl_command p (upload_url (self m))) t)]) \/
     (List.length lines = 1%nat /\
      ~ exists t,
          p ∈ files m /\
          spawn E (curl_command p (upload_url (self m))) (calls m) = inr t /\
          returncode (curl (curl_command p (upload_url (self m))) t) <> 0)).
Proof.
  intros H. destruct H as [Hout|e Hin Hs|t Hin Hs Hrc|t d e Hin Hs Hrc Hd Hm
                           |t d Hin Hs Hrc Hd Hm].
  - eexists. split; [reflexivity|]. right. split; [reflexivity|].
    intros (t & Hin & _). contradiction.
  - eexists. split; [reflexivity|]. right. split; [reflexivity|].
    intros (t & _ & Hs' & _). rewrite Hs in Hs'. discriminate.
  - eexists. split; [simpl; now rewrite <- app_assoc|]. left.
    exists t. auto.
  - destruct (after_failed_move_frame E p d m) as (_ & Hfl & _).
    exists ["Error processing " +:+ p +:+ ": " +:+ exn_str e].
    split; [cbn [console printed]; now rewrite Hfl|].
    right. split; [reflexivity|].
    intros (t' & _ & Hs' & Hrc'). rewrite Hs in Hs'. injection Hs' as <-.
    contradiction.
  - eexists. split; [reflexivity|]. right. split; [reflexivity|].
    intros (t' & _ & Hs' & Hrc'). rewrite Hs in Hs'. injection Hs' as <-.
    contradiction.
Qed.

(** X4.  The calls of one [upload_file] run are none, the one [curl] run, or
    the [curl] run followed by one move; the move is made only after [curl]
    ended with exit status 0, and goes to the archive destination.  The run
    never sleeps.  It prints exactly two lines (the path, then [curl]'s
    error text) when [curl] ran and ended with a non-zero exit status, and
    exactly one line in every other case. *)
Theorem upload_file_calls_shape (p : string) (m : machine) :
  let argv := curl_command p (upload_url (self m)) in
  let m' := snd (upload_file E p m) in
  exists tr lines,
    calls m' = (calls m ++ tr)%list /\
    console m' = (console m ++ lines)%list /\
    total_sleep tr = 0 /\
    (tr = [] \/ tr = [Run argv] \/
     exists t d,
       tr = [Run argv; Move p d] /\
       spawn E argv (calls m) = inr t /\
       returncode (curl argv t) = 0 /\
       archive_destination (probe_fuel (files m)) (files m)
         (uploaded_folder (self m)) p = Some d) /\
    ((exists t,
        p ∈ files m /\ spawn E argv (calls m) = inr t /\
        returncode (curl argv t) <> 0 /\
        lines = ["Failed to upload: " +:+ p;
                 "Error: " +:+ stderr (curl argv t)]) \/
     (List.length lines = 1%nat /\
      ~ exists t,
          p ∈ files m /\ spawn E argv (calls m) = inr t /\
          returncode (curl argv t) <> 0)).
Proof.
  intros argv m'. destruct (upload_file_cases p m) as (m1 & Hends & Hrun).
  destruct (attempt_ends_frame p m m1 Hends)
    as (_ & (tr & Hc & Hsl & Hshape) & _ & _).
  destruct (attempt_ends_lines p m m1 Hends) as (lines & Hl & Hn).
  exists tr, lines.
  assert (Hm' : calls m' = calls m1 /\ console m' = console m1).
  { unfold m'. rewrite Hrun.
    destruct (bool_decide (p ∈ processing_files (self m))); simpl; auto. }
  destruct Hm' as [-> ->]. auto.
Qed.

(** X5.  One [upload_file] run never removes, creates or overwrites a file
    other than by its one move: either every file is where it was; or the
    uploaded file has been moved to a destination that did not exist; or
    (a move that raised after making its copy) that destination has been
    created and the uploaded file is still in place. *)
Theorem upload_file_files_frame (p : string) (m : machine) :
  let m' := snd (upload_file E p m) in
  files m' = files m \/
  exists d, p ∈ files m /\ (d ∉ files m) /\ d <> p /\
            (files m' = {[d]} ∪ (files m ∖ {[p]}) \/
             files m' = {[d]} ∪ files m) /\
            (forall x, x <> p -> (x ∈ files m' <-> x ∈ files m \/ x = d)).
Proof.
  intros m'. destruct (upload_file_cases p m) as (m1 & Hends & Hrun).
  destruct (attempt_ends_frame p m m1 Hends) as (_ & _ & _ & Hf).
  assert (Hm' : files m' = files m1).
  { unfold m'. rewrite Hrun.
    destruct (bool_decide (p ∈ processing_files (self m))); reflexivity. }
  rewrite Hm'. destruct Hf as [Hf|(d & Hin & Hd & Hf)]; [now left|].
  right. exists d. split; [exact Hin|]. split; [exact Hd|].
  split; [intros ->; contradiction|]. split; [exact Hf|].
  intros x Hx. destruct Hf as [-> | ->].
  - rewrite elem_of_union, elem_of_singleton,
      elem_of_difference, elem_of_singleton.
    split; [intros [->|[Hxin _]]; auto | intros [Hxin| ->]; auto].
  - rewrite elem_of_union, elem_of_singleton.
    split; [intros [->|Hxin]; auto | intros [Hxin| ->]; auto].
Qed.

(** X6.  When [curl] ends with exit status 0 and the move works, the file is
    gone from its original path and present at the archive destination,
    which did not exist before; one line naming the file is printed and the
    path is released. *)
Theorem upload_success_moves_file (p d : string) (m : machine) (t : transport) :
  let argv := curl_command p (upload_url (self m)) in
  p ∈ files m ->
  p ∈ processing_files (self m) ->
  spawn E argv (calls m) = inr t ->
  returncode (curl argv t) = 0 ->
  archive_destination (probe_fuel (files m)) (files m)
    (uploaded_folder (self m)) p = Some d ->
  move_error E p d (calls m ++ [Run argv]) = None ->
  exists m',
    upload_file E p m = (Ret tt, m') /\
    (p ∉ files m') /\ d ∈ files m' /\ (d ∉ files m) /\
    files m' = {[d]} ∪ (files m ∖ {[p]}) /\
    calls m' = (calls m ++ [Run argv; Move p d])%list /\
    console m' =
      (console m ++ ["Successfully uploaded and moved: " +:+ basename p])%list /\
    processing_files (self m') = processing_files (self m) ∖ {[p]}.
Proof.
  intros argv Hin Hp Hs Hrc Hd Hm.
  pose proof (archive_destination_not_taken _ _ _ _ Hd) as Hfresh.
  pose proof (upload_body_success E p d m t Hin Hs Hrc Hd) as Hb.
  fold argv in Hb. rewrite Hm in Hb.
  eexists. split.
  - apply (upload_file_after_return E p m _ Hb); [reflexivity|exact Hp].
  - simpl. rewrite <- app_assoc. simpl.
    split; [|split; [|repeat split; auto]].
    + rewrite elem_of_union, elem_of_singleton, elem_of_difference,
        elem_of_singleton.
      intros [->|[_ Hne]]; [contradiction|now apply Hne].
    + apply elem_of_union_l. now apply elem_of_singleton.
Qed.

(** X7.  When the upload worked but the move raises, [upload_file] catches
    the exception: the uploaded file is still at its original path and no
    file has been removed; the only change the files can show is the
    destination, which did not exist, created by the move before it failed.
    The line [Error processing <path>: <message>] is printed and the path
    is released. *)
Theorem move_failure_keeps_source (p d : string) (m : machine) (t : transport)
    (e : exn) :
  let argv := curl_command p (upload_url (self m)) in
  p ∈ files m ->
  p ∈ processing_files (self m) ->
  spawn E argv (calls m) = inr t ->
  returncode (curl argv t) = 0 ->
  archive_destination (probe_fuel (files m)) (files m)
    (uploaded_folder (self m)) p = Some d ->
  move_error E p d (calls m ++ [Run argv]) = Some e ->
  exists m',
    upload_file E p m = (Ret tt, m') /\
    p ∈ files m' /\
    (d ∉ files m) /\
    files m' = (if move_copied E p d (calls m ++ [Run argv])
                then {[d]} ∪ files m else files m) /\
    (forall x, x ∈ files m -> x ∈ files m') /\
    calls m' = (calls m ++ [Run argv; Move p d])%list /\
    console m' =
      (console m ++ ["Error processing " +:+ p +:+ ": " +:+ exn_str e])%list /\
    (p ∉ processing_files (self m')).
Proof.
  intros argv Hin Hp Hs Hrc Hd Hm.
  pose proof (archive_destination_not_taken _ _ _ _ Hd) as Hfresh.
  pose proof (upload_body_success E p d m t Hin Hs Hrc Hd) as Hb.
  fold argv in Hb. rewrite Hm in Hb.
  destruct (after_failed_move_frame E p d m) as (Hfs & Hfl & Hfc & Hff).
  fold argv in Hfc, Hff.
  assert (Hkeep : forall x, x ∈ files m ->
            x ∈ files (after_failed_move E p d m)).
  { intros x Hx. rewrite Hff.
    destruct (move_copied E p d (calls m ++ [Run argv])); [|exact Hx].
    now apply elem_of_union_r. }
  eexists. split.
  - apply (upload_file_after_raise E p m _ e Hb); [exact Hfs|exact Hp].
  - cbn [files console calls self released printed with_processing
         processing_files].
    rewrite Hfl, Hfs.
    split; [now apply Hkeep|]. split; [exact Hfresh|].
    split; [exact Hff|]. split; [exact Hkeep|]. split; [exact Hfc|].
    split; [reflexivity|].
    apply not_elem_of_difference. right. now apply elem_of_singleton.
Qed.

(** X8.  When [curl] cannot be started ([subprocess.run] raises), nothing is
    moved and no second attempt is made: the files are unchanged, the line
    [Error processing <path>: <message>] is printed, and the path is
    released. *)
Theorem spawn_failure_is_reported (p : string) (m : machine) (e : exn) :
  let argv := curl_command p (upload_url (self m)) in
  p ∈ files m ->
  p ∈ processing_files (self m) ->
  spawn E argv (calls m) = inl e ->
  exists m',
    upload_file E p m = (Ret tt, m') /\
    files m' = files m /\
    calls m' = (calls m ++ [Run argv])%list /\
    console m' =
      (console m ++ ["Error processing " +:+ p +:+ ": " +:+ exn_str e])%list /\
    (p ∉ processing_files (self m')).
Proof.
  intros argv Hin Hp Hs.
  pose proof (upload_body_spawn_error E p m e Hin Hs) as Hb.
  eexists. split.
  - apply (upload_file_after_raise E p m _ e Hb); [reflexivity|exact Hp].
  - simpl. repeat split; auto.
    apply not_elem_of_difference. right. now apply elem_of_singleton.
Qed.

End UploadCases.

(** * Further properties of [on_created] and of the dispatcher *)

Section HandlerCases.
Variable E : env.

Lemma handler_record_eq (h : ImageUploader) (S : gset string) :
  S = processing_files h ->
  {| watch_folder := watch_folder h; uploaded_folder := uploaded_folder h;
     upload_url := upload_url h; processing_files := S |} = h.
Proof. intros ->. now destruct h. Qed.

Lemma total_sleep_app (a b : list call) :
  total_sleep (a ++ b) = total_sleep a + total_sleep b.
Proof.
  induction a as [|c a IH]; simpl; [reflexivity|].
  destruct c; rewrite IH; lia.
Qed.

(** One handler call, whatever the event. *)
Lemma on_created_effect (event : FileSystemEvent) (m : machine) :
  exists m' tr lines,
    on_created E event m = (Ret tt, m') /\
    self m' = self m /\
    calls m' = (calls m ++ tr)%list /\
    console m' = (console m ++ lines)%list /\
    total_sleep tr =
      (if eligible event
       then if bool_decide (event_key event ∈ processing_files (self m))
            then 0 else 30
       else 0).
Proof.
  destruct (eligible event) eqn:He.
  - case_bool_decide as Hk.
    + exists m, [], []. rewrite !app_nil_r.
      rewrite (on_created_busy E event m Hk). auto.
    + rewrite (on_created_eligible E event m He Hk).
      set (p := event_key event) in *.
      set (m0 := slept E 30 (acquired p m)).
      destruct (upload_file_cases E p m0) as (m1 & Hends & Hrun).
      rewrite bool_decide_eq_true_2 in Hrun
        by (simpl; apply elem_of_union_l; now apply elem_of_singleton).
      destruct (attempt_ends_frame E p m0 m1 Hends)
        as (Hs & (tr & Hc & Hsl & _) & (lines & Hl) & _).
      exists (released p m1), (Sleep 30 :: tr), lines.
      split; [exact Hrun|]. split; [|split; [|split]].
      * simpl. rewrite Hs. simpl. apply handler_record_eq.
        now apply acquire_release_id.
      * simpl. rewrite Hc. simpl. now rewrite <- app_assoc.
      * simpl. rewrite Hl. reflexivity.
      * simpl. rewrite Hsl. reflexivity.
  - exists m, [], []. rewrite !app_nil_r.
    rewrite (on_created_ineligible E event m He). auto.
Qed.

(** X1.  The handler does something exactly for a non-directory event whose
    path has an image suffix and is not in flight; for every other event it
    returns with the machine untouched. *)
Theorem on_created_acts_iff (event : FileSystemEvent) (m : machine) :
  on_created E event m = (Ret tt, m) <->
  eligible event = false \/ event_key event ∈ processing_files (self m).
Proof.
  split.
  - intros Hrun. destruct (eligible event) eqn:He; [|now left].
    right. destruct (decide (event_key event ∈ processing_files (self m)))
      as [Hk|Hk]; [exact Hk|].
    exfalso.
    destruct (on_created_pipeline E event m He Hk) as (m' & tr & Hr & Hc & _).
    rewrite Hrun in Hr. injection Hr as <-.
    apply (f_equal (@List.length call)) in Hc.
    rewrite length_app in Hc. simpl in Hc. lia.
  - intros [He|Hk].
    + now apply on_created_ineligible.
    + now apply on_created_busy.
Qed.

(** X2.  Whenever a call of [on_created] ends, with whatever event and
    from whatever state, the settings and the in-flight set are exactly
    what they were before the call (a path the call added has been removed
    again), and the console and the list of external calls have only been
    appended to. *)
Theorem on_created_keeps_handler_state (event : FileSystemEvent)
    (m m' : machine) (r : outcome unit) :
  on_created E event m = (r, m') ->
  self m' = self m /\
  processing_files (self m') = processing_files (self m) /\
  exists tr lines,
    calls m' = (calls m ++ tr)%list /\
    console m' = (console m ++ lines)%list.
Proof.
  intros Hrun.
  destruct (on_created_effect event m)
    as (m0 & tr & lines & H1 & H2 & H3 & H4 & _).
  rewrite H1 in Hrun. injection Hrun as _ <-.
  split; [exact H2|]. split; [now rewrite H2|]. exists tr, lines. auto.
Qed.

Lemma dispatch_effect (events : list FileSystemEvent) (m : machine) :
  processing_files (self m) = ∅ ->
  exists m',
    dispatch_events E events m = (Ret tt, m') /\
    self m' = self m /\
    total_sleep (calls m') =
    total_sleep (calls m) + 30 * Z.of_nat (List.length (List.filter eligible events)).
Proof.
  revert m. induction events as [|event rest IH]; intros m Hm.
  - exists m. simpl. split; [reflexivity|]. split; [reflexivity|lia].
  - destruct (on_created_effect event m)
      as (m1 & tr & lines & Hr & Hs & Hc & _ & Hsl).
    rewrite bool_decide_eq_false_2 in Hsl
      by (rewrite Hm; apply not_elem_of_empty).
    destruct (IH m1) as (m' & Hd & Hs' & Ht); [now rewrite Hs|].
    exists m'. split; [|split].
    + simpl. unfold bind. now rewrite Hr.
    + now rewrite Hs'.
    + rewrite Ht, Hc, total_sleep_app, Hsl. simpl.
      destruct (eligible event); simpl List.length; lia.
Qed.

(** X3.  When the dispatcher thread has taken a handler fresh from
    [__init__] through a whole queue of events, the settings are unchanged,
    the in-flight set is empty again, and the thread has slept 30 seconds
    for each event of the queue that passes the filter, repeated paths
    included: in this mode the in-flight test drops no event. *)
Theorem handled_queue_sleeps_per_event (w u url : string) (fs : gset string)
    (events : list FileSystemEvent) (m' : machine) :
  let m := {| self := new_ImageUploader w u url; files := fs;
              console := []; calls := [] |} in
  dispatch_events E events m = (Ret tt, m') ->
  self m' = new_ImageUploader w u url /\
  processing_files (self m') = ∅ /\
  total_sleep (calls m') =
  30 * Z.of_nat (List.length (List.filter eligible events)).
Proof.
  intros m Hrun.
  destruct (dispatch_effect events m) as (m0 & Hd & Hs & Ht); [reflexivity|].
  rewrite Hd in Hrun. injection Hrun as <-.
  split; [exact Hs|]. split; [now rewrite Hs|].
  rewrite Ht. simpl. lia.
Qed.

End HandlerCases.

(** * Further properties of the archive name *)

Section ArchiveCases.

Local Arguments String.append !_ _ / : simpl nomatch.

(** X9.  The archive destination is always found (the loop ends), never
    names an existing path, and is the archive folder joined with the
    file's own base, or its base followed by [_k] for some [k >= 1], and
    then the file's own extension. *)
Theorem archive_destination_is_fresh (fs : gset string) (folder p : string) :
  let n := basename p in
  let base := fst (splitext n) in
  let ext := snd (splitext n) in
  exists d stem,
    archive_destination (probe_fuel fs) fs folder p = Some d /\
    (d ∉ fs) /\
    d = join2 folder (stem +:+ ext) /\
    (stem = base \/
     exists k, (1 <= k)%nat /\ stem = base +:+ "_" +:+ str_of_nat k).
Proof.
  intros n base ext.
  destruct (decide (join2 folder n ∈ fs)) as [Hin|Hout].
  - destruct (archive_destination_numbered (probe_fuel fs) fs folder p)
      as (k & Hk & Hd & Hfree & _); [unfold probe_fuel; lia|exact Hin|].
    fold n base ext in Hd, Hfree.
    exists (join2 folder (candidate base ext k)), (base +:+ "_" +:+ str_of_nat k).
    split; [exact Hd|]. split; [exact Hfree|]. split.
    + unfold candidate. now rewrite !str_app_assoc.
    + right. now exists k.
  - exists (join2 folder n), base.
    split; [now apply archive_destination_free|]. split; [exact Hout|].
    split; [|now left].
    unfold base, ext. now rewrite splitext_join.
Qed.

(** X10.  Two files of the same name archived one after the other get two
    different destinations: once the first destination exists, the next
    destination computed for that name is another path, free as well. *)
Theorem second_archive_name_differs (fs : gset string) (folder p d1 : string) :
  archive_destination (probe_fuel fs) fs folder p = Some d1 ->
  exists d2,
    archive_destination (probe_fuel ({[d1]} ∪ fs)) ({[d1]} ∪ fs) folder p
      = Some d2 /\
    d2 <> d1 /\ (d2 ∉ fs) /\ (d1 ∉ fs).
Proof.
  intros H1.
  destruct (archive_destination_total ({[d1]} ∪ fs) folder p) as [d2 H2].
  exists d2. split; [exact H2|].
  apply archive_destination_not_taken in H2.
  apply archive_destination_not_taken in H1.
  rewrite not_elem_of_union, not_elem_of_singleton in H2.
  destruct H2 as [Hne Hfs]. auto.
Qed.

End ArchiveCases.

(** * Further properties of the path tests *)

Section PathCases.

Local Arguments String.append !_ _ / : simpl nomatch.

Lemma mem_rev_app (c : ascii) (s acc : string) :
  mem c (String.rev_app s acc) = mem c s || mem c acc.
Proof.
  revert acc. induction s as [|a s IH]; intros acc; simpl; [reflexivity|].
  rewrite IH. simpl. destruct (Ascii.eqb a c), (mem c s); reflexivity.
Qed.

(** The pieces [split] returns hold no separator. *)
Lemma split_go_no_sep (c : ascii) (cur s : string) :
  mem c cur = false ->
  Forall (fun x => mem c x = false) (split_go c cur s).
Proof.
  revert cur. induction s as [|a s IH]; intros cur Hcur; simpl.
  - constructor; [|constructor]. unfold String.rev.
    now rewrite mem_rev_app, Hcur.
  - destruct (Ascii.eqb a c) eqn:Ha.
    + constructor; [|now apply IH].
      unfold String.rev. now rewrite mem_rev_app, Hcur.
    + apply IH. simpl. now rewrite Ha, Hcur.
Qed.

Lemma parts_no_sep (s : string) :
  Forall (fun x => mem sep x = false) (parts (mkPath s)).
Proof.
  simpl. apply Forall_forall. intros x Hx.
  apply list_elem_of_filter in Hx as [_ Hx].
  pose proof (split_go_no_sep sep "" (lstrip_sep s) eq_refl) as H.
  rewrite Forall_forall in H. now apply H.
Qed.

Lemma root_shape (s : string) :
  root (mkPath s) = "" \/ exists d, root (mkPath s) = d +:+ "/".
Proof.
  simpl. unfold parse_root.
  destruct s as [|a [|b [|c s]]]; simpl; auto;
    repeat match goal with
           | |- context [Ascii.eqb ?x sep] => destruct (Ascii.eqb x sep)
           end; auto; right; (now exists "") || (now exists "/").
Qed.

Lemma basename_prefix (pre x : string) :
  pre = "" \/ (exists d, pre = d +:+ "/") ->
  mem sep x = false -> basename (pre +:+ x) = x.
Proof.
  intros [-> | [d ->]] Hx.
  - simpl. now apply basename_of_name.
  - unfold basename, slice_from.
    apply rfind_absent in Hx.
    rewrite rfind_app, Hx. change (0 <=? -1) with false. cbv iota.
    rewrite rfind_app. change (rfind sep "/") with 0.
    change (0 <=? 0) with true. cbv iota.
    replace (Z.to_nat (len d + 0 + 1)) with (String.length (d +:+ "/") + 0)%nat
      by (unfold len; rewrite str_length_app; simpl; lia).
    rewrite drop_app. apply drop_0.
Qed.

Lemma basename_join (l : list string) (pre : string) :
  l <> [] ->
  Forall (fun x => mem sep x = false) l ->
  pre = "" \/ (exists d, pre = d +:+ "/") ->
  basename (pre +:+ join "/" l) = List.last l "".
Proof.
  revert pre. induction l as [|x l IH]; intros pre Hne Hall Hpre;
    [contradiction|].
  destruct l as [|y l].
  - simpl. apply basename_prefix; [exact Hpre|]. now inversion Hall.
  - change (join "/" (x :: y :: l)) with (x +:+ "/" +:+ join "/" (y :: l)).
    change (List.last (x :: y :: l) "") with (List.last (y :: l) "").
    rewrite <- (IH ((pre +:+ x) +:+ "/")).
    + now rewrite !str_app_assoc.
    + discriminate.
    + now inversion Hall.
    + right. now exists (pre +:+ x).
Qed.

Lemma to_str_nonempty (p : Path) :
  parts p <> [] -> to_str p = root p +:+ join "/" (parts p).
Proof.
  destruct p as [r l]. unfold to_str. simpl.
  destruct r, l; intros H; try reflexivity. contradiction.
Qed.

(** The last component of [str(Path(s))] is [Path(s).name]. *)
Lemma basename_to_str (s : string) :
  name (mkPath s) <> "" ->
  basename (to_str (mkPath s)) = name (mkPath s).
Proof.
  intros Hn. unfold name in *.
  assert (Hne : parts (mkPath s) <> []).
  { intros H. rewrite H in Hn. now apply Hn. }
  rewrite to_str_nonempty by exact Hne.
  apply basename_join; [exact Hne|apply parts_no_sep|apply root_shape].
Qed.

(** X11.  For an event that passes the filter, the file name
    [upload_file] archives under ([os.path.basename] of the path string) is
    the name the filter looked at ([Path.name]): a non-empty stem, a dot,
    and [jpg], [jpeg] or [png] in some mix of cases. *)
Theorem archived_name_is_filtered_name (event : FileSystemEvent) :
  eligible event = true ->
  basename (event_key event) = name (mkPath (src_path event)) /\
  exists stem e,
    basename (event_key event) = stem +:+ "." +:+ e /\
    stem <> "" /\ In (lower e) ["jpg"; "jpeg"; "png"].
Proof.
  intros He. unfold eligible in He. apply andb_prop in He as [_ Hi].
  unfold is_image in Hi. apply in_list_In in Hi.
  destruct (suffix_inv (mkPath (src_path event)))
    as (stem & e & Hn & Hstem & _ & _ & Hsuf).
  { intros Hs. rewrite Hs in Hi. simpl in Hi. intuition discriminate. }
  assert (Hb : basename (event_key event) = name (mkPath (src_path event))).
  { apply basename_to_str. rewrite Hn. destruct stem; [contradiction|].
    discriminate. }
  split; [exact Hb|]. exists stem, e. rewrite Hb.
  split; [exact Hn|]. split; [exact Hstem|].
  rewrite Hsuf in Hi. now apply dotted_extension.
Qed.

End PathCases.

Section RejectedNames.
Variable E : env.

Local Arguments String.append !_ _ / : simpl nomatch.

(** X12.  A created file whose name has no dot at all, or ends in a dot, is
    never processed, whatever its letters: [Path.suffix] is empty, so the
    handler returns with the machine untouched. *)
Theorem undotted_names_rejected (event : FileSystemEvent) (m : machine) :
  let n := name (mkPath (src_path event)) in
  mem dot n = false \/ (exists s, n = s +:+ ".") ->
  suffix (mkPath (src_path event)) = "" /\
  on_created E event m = (Ret tt, m).
Proof.
  intros n Hn.
  assert (Hs : suffix (mkPath (src_path event)) = "").
  { unfold suffix. fold n. destruct Hn as [Hno | [s Hs]].
    - apply rfind_absent in Hno. now rewrite Hno.
    - rewrite Hs, rfind_app, len_app. change (rfind dot ".") with 0.
      change (0 <=? 0) with true. cbv iota. change (len ".") with 1.
      replace (len s + 0 <? len s + 1 - 1) with false
        by (symmetry; apply Z.ltb_ge; lia).
      now rewrite andb_false_r. }
  split; [exact Hs|].
  apply on_created_ineligible. unfold eligible, is_image. rewrite Hs.
  apply andb_false_r.
Qed.

End RejectedNames.

(** * The whole pipeline of one event *)

Section Pipeline.
Variable E : env.

(** X13.  End to end: for a created image file that is not in flight, still
    exists after the 30 seconds, is uploaded with exit status 0 and moved
    without error, the handler returns with the file gone from its path and
    present at the archive destination; it has slept once, run [curl] once
    and moved once, in that order, and the settings and the in-flight set
    are as before. *)
Theorem created_image_is_archived (event : FileSystemEvent) (m : machine)
    (t : transport) (d : string) :
  let p := event_key event in
  let m0 := slept E 30 (acquired p m) in
  let argv := curl_command p (upload_url (self m)) in
  eligible event = true ->
  p ∉ processing_files (self m) ->
  p ∈ files m0 ->
  spawn E argv (calls m0) = inr t ->
  returncode (curl argv t) = 0 ->
  archive_destination (probe_fuel (files m0)) (files m0)
    (uploaded_folder (self m)) p = Some d ->
  move_error E p d (calls m0 ++ [Run argv]) = None ->
  exists m',
    on_created E event m = (Ret tt, m') /\
    self m' = self m /\
    (p ∉ files m') /\ d ∈ files m' /\
    files m' = {[d]} ∪ (files m0 ∖ {[p]}) /\
    calls m' = (calls m ++ [Sleep 30; Run argv; Move p d])%list /\
    console m' =
      (console m ++ ["Successfully uploaded and moved: " +:+ basename p])%list.
Proof.
  intros p m0 argv He Hk Hin Hs Hrc Hd Hm.
  rewrite (on_created_eligible E event m He Hk). fold p m0.
  pose proof (archive_destination_not_taken _ _ _ _ Hd) as Hfresh.
  pose proof (upload_body_success E p d m0 t Hin Hs Hrc Hd) as Hb.
  change (upload_url (self m0)) with (upload_url (self m)) in Hb.
  fold argv in Hb. rewrite Hm in Hb.
  eexists. split.
  - apply (upload_file_after_return E p m0 _ Hb); [reflexivity|].
    simpl. apply elem_of_union_l. now apply elem_of_singleton.
  - simpl. rewrite <- !app_assoc. simpl.
    split; [|split; [|split; [|repeat split; auto]]].
    + apply handler_record_eq. now apply acquire_release_id.
    + rewrite elem_of_union, elem_of_singleton, elem_of_difference,
        elem_of_singleton.
      intros [Heq|[_ Hne]]; [|now apply Hne].
      apply Hfresh. now rewrite <- Heq.
    + apply elem_of_union_l. now apply elem_of_singleton.
Qed.

End Pipeline.

(** * The further properties at concrete inputs *)

Lemma upload_success_moves_file_witness :
  exists m',
    upload_file served photo (in_flight photo [photo]) = (Ret tt, m') /\
    (photo ∉ files m') /\ "/cam/uploaded/photo.jpg" ∈ files m'.
Proof.
  destruct (upload_success_moves_file served photo "/cam/uploaded/photo.jpg"
              (in_flight photo [photo]) (HttpResponse 200 ""))
    as (m' & Hr & Hgone & Hthere & _).
  - by_compute.
  - by_compute.
  - reflexivity.
  - reflexivity.
  - vm_compute. reflexivity.
  - reflexivity.
  - exists m'. auto.
Defined.

Lemma move_failure_keeps_source_witness :
  exists m',
    upload_file locked_source photo (in_flight photo [photo]) = (Ret tt, m') /\
    photo ∈ files m' /\
    files m' = {["/cam/uploaded/photo.jpg"]} ∪ files (in_flight photo [photo]) /\
    (photo ∉ processing_files (self m')).
Proof.
  destruct (move_failure_keeps_source locked_source photo
              "/cam/uploaded/photo.jpg" (in_flight photo [photo])
              (HttpResponse 200 "") (OSError "[Errno 13] Permission denied"))
    as (m' & Hr & Hin & _ & Hf & _ & _ & _ & Hg).
  - by_compute.
  - by_compute.
  - reflexivity.
  - reflexivity.
  - vm_compute. reflexivity.
  - reflexivity.
  - exists m'. auto.
Defined.

Lemma spawn_failure_is_reported_witness :
  exists m',
    upload_file no_curl photo (in_flight photo [photo]) = (Ret tt, m') /\
    files m' = files (in_flight photo [photo]) /\
    (photo ∉ processing_files (self m')).
Proof.
  destruct (spawn_failure_is_reported no_curl photo (in_flight photo [photo])
              (OSError "[Errno 2] No such file or directory: 'curl'"))
    as (m' & Hr & Hf & _ & _ & Hg).
  - by_compute.
  - by_compute.
  - reflexivity.
  - exists m'. auto.
Defined.

Lemma second_archive_name_differs_witness :
  archive_destination (probe_fuel crowded_archive) crowded_archive
    "/cam/uploaded" photo = Some "/cam/uploaded/photo_2.jpg" /\
  exists d2,
    archive_destination
      (probe_fuel ({["/cam/uploaded/photo_2.jpg"]} ∪ crowded_archive))
      ({["/cam/uploaded/photo_2.jpg"]} ∪ crowded_archive)
      "/cam/uploaded" photo = Some d2 /\
    d2 <> "/cam/uploaded/photo_2.jpg".
Proof.
  assert (H : archive_destination (probe_fuel crowded_archive) crowded_archive
                "/cam/uploaded" photo = Some "/cam/uploaded/photo_2.jpg")
    by (vm_compute; reflexivity).
  split; [exact H|].
  destruct (second_archive_name_differs crowded_archive "/cam/uploaded" photo
              "/cam/uploaded/photo_2.jpg" H) as (d2 & H2 & Hne & _).
  exists d2. auto.
Defined.

Lemma archived_name_is_filtered_name_witness :
  eligible (created "/cam//sub/./Photo.JPG") = true /\
  basename (event_key (created "/cam//sub/./Photo.JPG")) =
  name (mkPath (src_path (created "/cam//sub/./Photo.JPG"))).
Proof.
  assert (H : eligible (created "/cam//sub/./Photo.JPG") = true)
    by (vm_compute; reflexivity).
  split; [exact H|].
  exact (proj1 (archived_name_is_filtered_name _ H)).
Defined.

Lemma undotted_names_rejected_witness :
  (exists s, name (mkPath (src_path (created "/cam/photo.jpg."))) = s +:+ ".") /\
  on_created served (created "/cam/photo.jpg.") (machine_of cam ["/cam/photo.jpg."])
  = (Ret tt, machine_of cam ["/cam/photo.jpg."]).
Proof.
  assert (H : exists s, name (mkPath (src_path (created "/cam/photo.jpg.")))
                        = s +:+ ".")
    by (exists "photo.jpg"; vm_compute; reflexivity).
  split; [exact H|].
  exact (proj2 (undotted_names_rejected served (created "/cam/photo.jpg.")
                  (machine_of cam ["/cam/photo.jpg."]) (or_intror H))).
Defined.

Lemma created_image_is_archived_witness :
  exists m',
    on_created served (created photo) (machine_of cam [photo]) = (Ret tt, m') /\
    calls m' = [Sleep 30; Run (curl_command photo (upload_url cam));
                Move photo "/cam/uploaded/photo.jpg"] /\
    (photo ∉ files m').
Proof.
  destruct (created_image_is_archived served (created photo)
              (machine_of cam [photo]) (HttpResponse 200 "")
              "/cam/uploaded/photo.jpg")
    as (m' & Hr & _ & Hgone & _ & _ & Hc & _).
  - vm_compute. reflexivity.
  - by_compute.
  - by_compute.
  - reflexivity.
  - reflexivity.
  - vm_compute. reflexivity.
  - reflexivity.
  - exists m'. split; [exact Hr|]. split; [exact Hc | exact Hgone].
Defined.

Lemma on_created_keeps_handler_state_witness :
  self (snd (on_created refused (created photo) (machine_of cam [photo]))) =
  self (machine_of cam [photo]).
Proof.
  exact (proj1 (on_created_keeps_handler_state refused (created photo)
                  (machine_of cam [photo]) _ _ (surjective_pairing _))).
Defined.

Lemma handled_queue_sleeps_per_event_witness :
  total_sleep
    (calls (snd (dispatch_events served
                   [created first_file; created "/cam/notes.txt";
                    created first_file]
                   (machine_of cam [first_file])))) = 60.
Proof.
  assert (H : dispatch_events served
                [created first_file; created "/cam/notes.txt";
                 created first_file]
                {| self := new_ImageUploader "/cam" "/cam/uploaded"
                             "https://example.org/upload.php";
                   files := list_to_set [first_file];
                   console := []; calls := [] |} =
              (Ret tt,
               snd (dispatch_events served
                      [created first_file; created "/cam/notes.txt";
                       created first_file]
                      (machine_of cam [first_file]))))
    by (vm_compute; reflexivity).
  destruct (handled_queue_sleeps_per_event served _ _ _ _ _ _ H)
    as (_ & _ & Ht).
  rewrite Ht. vm_compute. reflexivity.
Defined.
